(** * video-folder-cleanup: the tree-classification engine of main.go

    A shallow embedding of [scanLibrary], [processStudio],
    [processTitleFolder], [checkDirectChildren], [isDirEmpty] and
    [isMetadataSubdir], together with the parts of Go's [strings] and
    [path/filepath] packages they call, and the properties of the
    classification that the specification states.

    Conventions.
    - A Go [string] is a byte sequence: Stdlib's [string] of [ascii].
    - The file system is a snapshot: [os.Stat] and [os.ReadDir] are two
      functions of the path, packed in a [FileSystem] record.
    - [result.X = append(result.X, v)] between [resultMu.Lock()] and
      [resultMu.Unlock()] is one atomic [emission]; a function that only
      appends to the shared [CleanupResult] is the list of its emissions,
      in program order, and [run] replays such a list on a result.
    - The goroutines of [scanLibrary] are a transition system over the
      channel, the wait group, the workers and the emissions made so far. *)

From Stdlib Require Import String Ascii List Bool Arith ZArith Lia Permutation.
Import ListNotations.
Open Scope string_scope.
Open Scope list_scope.

(** ** Go's [strings] and [path/filepath], on Unix *)

Module GoStrings.

(** [strings.ToLower] on one byte: the ASCII letters [A]..[Z] move to
    [a]..[z], every other byte is kept. *)
Definition lowerByte (c : ascii) : ascii :=
  if (Ascii.leb "A" c && Ascii.leb c "Z")%bool
  then ascii_of_nat (nat_of_ascii c + 32)
  else c.

(** [strings.ToLower], for names written in ASCII. *)
Fixpoint ToLower (s : string) : string :=
  match s with
  | EmptyString => EmptyString
  | String c rest => String (lowerByte c) (ToLower rest)
  end.

(** [strings.HasPrefix(s, prefix)]. *)
Definition HasPrefix (s pre : string) : bool := String.prefix pre s.

(** [strings.HasSuffix(s, suffix)]:
    [len(s) >= len(suffix) && s[len(s)-len(suffix):] == suffix]. *)
Definition HasSuffix (s suffix : string) : bool :=
  Nat.leb (String.length suffix) (String.length s)
  && String.eqb
       (substring (String.length s - String.length suffix)
                  (String.length suffix) s)
       suffix.

(** [strings.TrimSuffix(s, suffix)]: [s] without the trailing [suffix],
    or [s] itself when it does not end with [suffix]. *)
Definition TrimSuffix (s suffix : string) : string :=
  if HasSuffix s suffix
  then substring 0 (String.length s - String.length suffix) s
  else s.

Definition isPathSeparator (c : ascii) : bool := Ascii.eqb c "/".

(** The loop of [filepath.Ext]:
    [for i := len(path) - 1; i >= 0 && !os.IsPathSeparator(path[i]); i--]
    with [i + 1] as the recursion argument. *)
Fixpoint ExtFrom (path : string) (n : nat) : string :=
  match n with
  | O => ""
  | S i =>
      match String.get i path with
      | None => ""
      | Some c =>
          if isPathSeparator c then ""
          else if Ascii.eqb c "." then substring i (String.length path - i) path
          else ExtFrom path i
      end
  end.

(** [filepath.Ext(path)]: the suffix beginning at the final dot of the
    last element of [path], empty when there is no dot. *)
Definition Ext (path : string) : string := ExtFrom path (String.length path).

(** [path] without its trailing slashes. *)
Fixpoint stripTrailingSlashes (path : string) : string :=
  match path with
  | EmptyString => EmptyString
  | String c rest =>
      match stripTrailingSlashes rest with
      | EmptyString => if isPathSeparator c then EmptyString else String c EmptyString
      | rest' => String c rest'
      end
  end.

Fixpoint hasSeparator (path : string) : bool :=
  match path with
  | EmptyString => false
  | String c rest => isPathSeparator c || hasSeparator rest
  end.

(** What follows the last slash of [path]; [path] when it has none. *)
Fixpoint lastElement (path : string) : string :=
  match path with
  | EmptyString => EmptyString
  | String c rest =>
      if hasSeparator rest then lastElement rest
      else if isPathSeparator c then rest
      else path
  end.

(** [filepath.Base(path)]: the last element of [path], after its
    trailing slashes are removed; ["."] for the empty path and ["/"] for
    a path of slashes only. *)
Definition Base (path : string) : string :=
  if String.eqb path "" then "."
  else
    let last := lastElement (stripTrailingSlashes path) in
    if String.eqb last "" then "/" else last.

(** [filepath.Join(dir, name)] for a directory path [dir] that is
    already clean (as [filepath.Clean] returns it, and neither ["."] nor
    ["/"]) and an entry name [name]: then the cleaning step of [Join]
    changes nothing and the result is the two joined by one slash. *)
Definition Join (dir name : string) : string := dir ++ "/" ++ name.

End GoStrings.

Import GoStrings.

(** ** Data model *)

(** [CleanupResult]: the four sequences that the scan fills. *)
Record CleanupResult := mkResult {
  OrphanedFolders : list string;
  OrphanedFiles : list string;
  EmptyFolders : list string;
  StructureWarnings : list string
}.

Definition emptyResult : CleanupResult := mkResult [] [] [] [].

(** What [os.ReadDir] and [os.Stat] return: a value, or an error that is
    kept as the text [%v] prints. *)
Inductive outcome (A : Type) : Type :=
| Ok (a : A)
| Failed (err : string).

Arguments Ok {A} a.
Arguments Failed {A} err.

(** [os.DirEntry], as far as the scan looks at it. *)
Record DirEntry := mkEntry {
  Name : string;
  IsDir : bool
}.

(** A snapshot of the file system: [Stat path] is [info.IsDir()] of
    [os.Stat(path)], [ReadDir path] the entries of [os.ReadDir(path)]. *)
Record FileSystem := mkFS {
  Stat : string -> outcome bool;
  ReadDir : string -> outcome (list DirEntry)
}.

(** [var videoExtensions = map[string]bool{...}], as its four pairs. *)
Definition videoExtensions : list (string * bool) :=
  [(".mkv", true); (".mp4", true); (".avi", true); (".m4v", true)].

(** [m[key]] on a [map[string]bool]: [false] for an absent key. *)
Fixpoint lookup (m : list (string * bool)) (key : string) : bool :=
  match m with
  | [] => false
  | (k, v) :: rest => if String.eqb k key then v else lookup rest key
  end.

(** [var metadataSubdirSuffixes = []string{".trickplay"}]. *)
Definition metadataSubdirSuffixes : list string := [".trickplay"].

(** The five [fmt.Sprintf] calls that build a structure warning, each
    with the path it is about. *)
Inductive warning : Type :=
| VideoAtLevel (level filePath : string)
| MetadataAtLevel (level filePath : string)
| UnexpectedSubdir (subdirPath : string)
| CannotReadStudio (studioPath err : string)
| CannotReadTitle (titlePath err : string).

(** The text that [fmt.Sprintf] returns. *)
Definition warningText (w : warning) : string :=
  match w with
  | VideoAtLevel level filePath =>
      "Video file at " ++ level ++ " level (should be in title folder): " ++ filePath
  | MetadataAtLevel level filePath =>
      "Metadata file at " ++ level ++ " level (should be in title folder): " ++ filePath
  | UnexpectedSubdir subdirPath =>
      "Unexpected subdirectory in title folder: " ++ subdirPath
  | CannotReadStudio studioPath err =>
      "Cannot read studio directory: " ++ studioPath ++ " (" ++ err ++ ")"
  | CannotReadTitle titlePath err =>
      "Cannot read title directory: " ++ titlePath ++ " (" ++ err ++ ")"
  end.

(** The path a warning names. *)
Definition warningPath (w : warning) : string :=
  match w with
  | VideoAtLevel _ p | MetadataAtLevel _ p | UnexpectedSubdir p
  | CannotReadStudio p _ | CannotReadTitle p _ => p
  end.

(** One locked append to the shared result. *)
Inductive emission : Type :=
| OrphanedFolder (path : string)
| OrphanedFile (path : string)
| EmptyFolder (path : string)
| StructureWarning (w : warning).

(** [result.X = append(result.X, v)]. *)
Definition emit (result : CleanupResult) (e : emission) : CleanupResult :=
  match e with
  | OrphanedFolder p =>
      mkResult (OrphanedFolders result ++ [p]) (OrphanedFiles result)
               (EmptyFolders result) (StructureWarnings result)
  | OrphanedFile p =>
      mkResult (OrphanedFolders result) (OrphanedFiles result ++ [p])
               (EmptyFolders result) (StructureWarnings result)
  | EmptyFolder p =>
      mkResult (OrphanedFolders result) (OrphanedFiles result)
               (EmptyFolders result ++ [p]) (StructureWarnings result)
  | StructureWarning w =>
      mkResult (OrphanedFolders result) (OrphanedFiles result)
               (EmptyFolders result) (StructureWarnings result ++ [warningText w])
  end.

(** The emissions of a piece of code, replayed in order on [result]. *)
Definition run (es : list emission) (result : CleanupResult) : CleanupResult :=
  fold_left emit es result.

(** ** The classifier *)

(** [isMetadataSubdir]: the loop over [metadataSubdirSuffixes] that
    returns [true] at the first suffix of the lowercased name. *)
Definition isMetadataSubdir (name : string) : bool :=
  existsb (fun suffix => HasSuffix (ToLower name) suffix) metadataSubdirSuffixes.

(** [isDirEmpty]: [(len(entries) == 0, nil)], or [(false, err)]. *)
Definition isDirEmpty (fs : FileSystem) (dirPath : string) : bool * option string :=
  match ReadDir fs dirPath with
  | Failed err => (false, Some err)
  | Ok entries => (Nat.eqb (List.length entries) 0, None)
  end.

(** One turn of the [for _, entry := range entries] loop of
    [processTitleFolder], on the pair [(hasVideoFile, unexpectedSubdirs)]. *)
Definition titleStep (acc : bool * list string) (entry : DirEntry)
  : bool * list string :=
  let '(hasVideoFile, unexpectedSubdirs) := acc in
  if IsDir entry then
    if negb (isMetadataSubdir (Name entry))
    then (hasVideoFile, unexpectedSubdirs ++ [Name entry])
    else (hasVideoFile, unexpectedSubdirs)
  else
    let ext := ToLower (Ext (Name entry)) in
    if lookup videoExtensions ext
    then (true, unexpectedSubdirs)
    else (hasVideoFile, unexpectedSubdirs).

(** [processTitleFolder(titlePath, result, resultMu)]. *)
Definition processTitleFolder (fs : FileSystem) (titlePath : string)
  : list emission :=
  match ReadDir fs titlePath with
  | Failed err => [StructureWarning (CannotReadTitle titlePath err)]
  | Ok entries =>
      if Nat.eqb (List.length entries) 0 then [EmptyFolder titlePath]
      else
        let '(hasVideoFile, unexpectedSubdirs) :=
          fold_left titleStep entries (false, []) in
        map (fun subdir => StructureWarning (UnexpectedSubdir (Join titlePath subdir)))
            unexpectedSubdirs
        ++ (if negb hasVideoFile && Nat.ltb 0 (List.length entries)
            then [OrphanedFolder titlePath]
            else [])
  end.

(** [videoBasenames[key] = true] on the [map[string]bool] used as a set. *)
Fixpoint setAdd (key : string) (keys : list string) : list string :=
  match keys with
  | [] => [key]
  | k :: rest => if String.eqb k key then keys else k :: setAdd key rest
  end.

(** One turn of the first loop of [checkDirectChildren], on the pair
    [(files, videoBasenames)]. *)
Definition collectStep (dirPath : string) (acc : list string * list string)
  (entry : DirEntry) : list string * list string :=
  let '(files, videoBasenames) := acc in
  if negb (IsDir entry) then
    let filePath := Join dirPath (Name entry) in
    let files := files ++ [filePath] in
    let ext := ToLower (Ext (Name entry)) in
    if lookup videoExtensions ext then
      let basename := TrimSuffix (Name entry) (Ext (Name entry)) in
      (files, setAdd (ToLower basename) videoBasenames)
    else (files, videoBasenames)
  else (files, videoBasenames).

(** The [for videoBase := range videoBasenames] loop with its [break].
    Go ranges over a map in no fixed order; the loop only asks whether
    some key is a prefix. *)
Definition hasMatchingVideo (videoBasenames : list string) (basename : string) : bool :=
  existsb (fun videoBase => HasPrefix (ToLower basename) videoBase) videoBasenames.

(** One turn of the second loop of [checkDirectChildren]. *)
Definition categorize (level : string) (videoBasenames : list string)
  (filePath : string) : list emission :=
  let filename := Base filePath in
  let ext := ToLower (Ext filename) in
  if lookup videoExtensions ext then
    [StructureWarning (VideoAtLevel level filePath)]
  else
    let basename := TrimSuffix filename ext in
    if hasMatchingVideo videoBasenames basename
    then [StructureWarning (MetadataAtLevel level filePath)]
    else [OrphanedFile filePath].

(** [checkDirectChildren(dirPath, level, result, resultMu)]. *)
Definition checkDirectChildren (fs : FileSystem) (dirPath level : string)
  : list emission :=
  match ReadDir fs dirPath with
  | Failed _ => []
  | Ok entries =>
      let '(files, videoBasenames) :=
        fold_left (collectStep dirPath) entries ([], []) in
      flat_map (categorize level videoBasenames) files
  end.

(** The [for _, entry := range titleEntries] loop of [processStudio]. *)
Definition processTitles (fs : FileSystem) (studioPath : string)
  (titleEntries : list DirEntry) : list emission :=
  flat_map
    (fun entry =>
       if negb (IsDir entry) then []
       else processTitleFolder fs (Join studioPath (Name entry)))
    titleEntries.

(** [processStudio(studioPath, result, resultMu)]. *)
Definition processStudio (fs : FileSystem) (studioPath : string)
  : list emission :=
  checkDirectChildren fs studioPath "studio"
  ++ match ReadDir fs studioPath with
     | Failed err => [StructureWarning (CannotReadStudio studioPath err)]
     | Ok titleEntries => processTitles fs studioPath titleEntries
     end.

(** ** The scan coordinator *)

(** [scanLibrary] up to the goroutines: the [os.Stat] check, the
    off-level check of the library and the list [studioDirs]. *)
Inductive prologue : Type :=
| Rejected
| Unreadable (es : list emission)
| Ready (es : list emission) (studioDirs : list string).

Definition scanPrologue (fs : FileSystem) (libraryPath : string) : prologue :=
  match Stat fs libraryPath with
  | Failed _ => Rejected
  | Ok isDir =>
      if negb isDir then Rejected
      else
        let es := checkDirectChildren fs libraryPath "library" in
        match ReadDir fs libraryPath with
        | Failed _ => Unreadable es
        | Ok studioEntries =>
            Ready es
              (flat_map
                 (fun entry =>
                    if IsDir entry then [Join libraryPath (Name entry)] else [])
                 studioEntries)
        end
  end.

(** The last loop of [scanLibrary]: an Empty Folder for each studio
    that [isDirEmpty] reports empty. *)
Definition emptyCheck (fs : FileSystem) (studioPath : string) : list emission :=
  if fst (isDirEmpty fs studioPath) then [EmptyFolder studioPath] else [].

Definition secondPass (fs : FileSystem) (studioDirs : list string) : list emission :=
  flat_map (emptyCheck fs) studioDirs.

(** A worker goroutine
    [for studioPath := range studioChan { processStudio(...) }]
    with its deferred [wg.Done()]: blocked on the channel, in the
    middle of [processStudio] with some appends still to make, or gone. *)
Inductive worker : Type :=
| Receiving
| Processing (pending : list emission)
| Exited.

(** Where the coordinator goroutine stands in [scanLibrary]. *)
Inductive coordinator : Type :=
| Spawning (i : Z)
| Sending (rest : list string)
| Closing
| Waiting
| Checking (rest : list string)
| Returned.

(** The shared state: the coordinator, the [sync.WaitGroup] counter,
    the buffered channel and whether it is closed, the workers, and
    the appends made so far to the result, oldest first. *)
Record state := mkState {
  pc : coordinator;
  wg : nat;
  studioChan : list string;
  closed : bool;
  workers : list worker;
  emitted : list emission
}.

Definition initial (es : list emission) : state :=
  mkState (Spawning 0) 0 [] false [] es.

(** One step of one goroutine. [numWorkers] is a Go [int]; the channel
    has capacity [len(studioDirs)]. *)
Inductive step (fs : FileSystem) (numWorkers : Z) (studioDirs : list string)
  : state -> state -> Prop :=
| step_spawn i n ch cl ws em :
    (i < numWorkers)%Z ->
    step fs numWorkers studioDirs
      (mkState (Spawning i) n ch cl ws em)
      (mkState (Spawning (i + 1)) (S n) ch cl (ws ++ [Receiving]) em)
| step_spawned i n ch cl ws em :
    ~ (i < numWorkers)%Z ->
    step fs numWorkers studioDirs
      (mkState (Spawning i) n ch cl ws em)
      (mkState (Sending studioDirs) n ch cl ws em)
| step_send s rest n ch cl ws em :
    List.length ch < List.length studioDirs ->
    step fs numWorkers studioDirs
      (mkState (Sending (s :: rest)) n ch cl ws em)
      (mkState (Sending rest) n (ch ++ [s]) cl ws em)
| step_sent n ch cl ws em :
    step fs numWorkers studioDirs
      (mkState (Sending []) n ch cl ws em)
      (mkState Closing n ch cl ws em)
| step_close n ch cl ws em :
    step fs numWorkers studioDirs
      (mkState Closing n ch cl ws em)
      (mkState Waiting n ch true ws em)
| step_wait ch cl ws em :
    step fs numWorkers studioDirs
      (mkState Waiting 0 ch cl ws em)
      (mkState (Checking studioDirs) 0 ch cl ws em)
| step_check s rest n ch cl ws em :
    step fs numWorkers studioDirs
      (mkState (Checking (s :: rest)) n ch cl ws em)
      (mkState (Checking rest) n ch cl ws (em ++ emptyCheck fs s))
| step_return n ch cl ws em :
    step fs numWorkers studioDirs
      (mkState (Checking []) n ch cl ws em)
      (mkState Returned n ch cl ws em)
| step_receive c s n ch cl ws1 ws2 em :
    step fs numWorkers studioDirs
      (mkState c n (s :: ch) cl (ws1 ++ Receiving :: ws2) em)
      (mkState c n ch cl (ws1 ++ Processing (processStudio fs s) :: ws2) em)
| step_append c e es n ch cl ws1 ws2 em :
    step fs numWorkers studioDirs
      (mkState c n ch cl (ws1 ++ Processing (e :: es) :: ws2) em)
      (mkState c n ch cl (ws1 ++ Processing es :: ws2) (em ++ [e]))
| step_processed c n ch cl ws1 ws2 em :
    step fs numWorkers studioDirs
      (mkState c n ch cl (ws1 ++ Processing [] :: ws2) em)
      (mkState c n ch cl (ws1 ++ Receiving :: ws2) em)
| step_exit c n ws1 ws2 em :
    step fs numWorkers studioDirs
      (mkState c (S n) [] true (ws1 ++ Receiving :: ws2) em)
      (mkState c n [] true (ws1 ++ Exited :: ws2) em).

(** Any number of steps. *)
Inductive steps (fs : FileSystem) (numWorkers : Z) (studioDirs : list string)
  : state -> state -> Prop :=
| steps_refl st : steps fs numWorkers studioDirs st st
| steps_step st1 st2 st3 :
    steps fs numWorkers studioDirs st1 st2 ->
    step fs numWorkers studioDirs st2 st3 ->
    steps fs numWorkers studioDirs st1 st3.

(** [scanLibrary(libraryPath, numWorkers, result, resultMu)] returns
    after the appends [es] to the shared result. *)
Inductive scanLibrary (fs : FileSystem) (libraryPath : string) (numWorkers : Z)
  : list emission -> Prop :=
| scan_rejected :
    scanPrologue fs libraryPath = Rejected ->
    scanLibrary fs libraryPath numWorkers []
| scan_unreadable es :
    scanPrologue fs libraryPath = Unreadable es ->
    scanLibrary fs libraryPath numWorkers es
| scan_returned es studioDirs st :
    scanPrologue fs libraryPath = Ready es studioDirs ->
    steps fs numWorkers studioDirs (initial es) st ->
    pc st = Returned ->
    scanLibrary fs libraryPath numWorkers (emitted st).

(** The same call, from the result before it to the result after it. *)
Definition scanResult (fs : FileSystem) (libraryPath : string) (numWorkers : Z)
  (result0 result1 : CleanupResult) : Prop :=
  exists es, scanLibrary fs libraryPath numWorkers es /\ result1 = run es result0.

(** The appends of a scan whose studios are processed one after the
    other, in the order of [studioDirs]. *)
Definition scanInOrder (fs : FileSystem) (es : list emission)
  (studioDirs : list string) : list emission :=
  es ++ flat_map (processStudio fs) studioDirs ++ secondPass fs studioDirs.

(** ** One schedule, to run the transition system *)

(** The first worker of [ws] that waits on the channel takes the next
    studio from it. *)
Fixpoint receiveTurn (fs : FileSystem) (ws : list worker) (ch : list string)
  : option (list worker * list string) :=
  match ws, ch with
  | Receiving :: rest, s :: ch' =>
      Some (Processing (processStudio fs s) :: rest, ch')
  | w :: rest, _ =>
      match receiveTurn fs rest ch with
      | Some (ws', ch') => Some (w :: ws', ch')
      | None => None
      end
  | [], _ => None
  end.

(** One move of a worker. *)
Definition workerMove (fs : FileSystem) (w : worker) (ch : list string)
  (cl : bool) : option (worker * list string * list emission * bool) :=
  match w with
  | Receiving =>
      match ch with
      | s :: ch' => Some (Processing (processStudio fs s), ch', [], false)
      | [] => if cl then Some (Exited, [], [], true) else None
      end
  | Processing (e :: es) => Some (Processing es, ch, [e], false)
  | Processing [] => Some (Receiving, ch, [], false)
  | Exited => None
  end.

(** The last worker of [ws] that can move, moved: the new workers and
    channel, what it appended, and whether it called [wg.Done()]. *)
Fixpoint workerTurn (fs : FileSystem) (ws : list worker) (ch : list string)
  (cl : bool) : option (list worker * list string * list emission * bool) :=
  match ws with
  | [] => None
  | w :: rest =>
      match workerTurn fs rest ch cl with
      | Some (ws', ch', new, done) => Some (w :: ws', ch', new, done)
      | None =>
          match workerMove fs w ch cl with
          | Some (w', ch', new, done) => Some (w' :: rest, ch', new, done)
          | None => None
          end
      end
  end.

(** The workers' turn: a waiting worker receives when the channel has a
    studio, else the last worker that can move does. *)
Definition workersMove (fs : FileSystem) (st : state) : option state :=
  match receiveTurn fs (workers st) (studioChan st) with
  | Some (ws', ch') =>
      Some (mkState (pc st) (wg st) ch' (closed st) ws' (emitted st))
  | None =>
      match workerTurn fs (workers st) (studioChan st) (closed st) with
      | Some (ws', ch', new, done) =>
          match done, wg st with
          | true, O => None
          | true, S n => Some (mkState (pc st) n ch' (closed st) ws' (emitted st ++ new))
          | false, n => Some (mkState (pc st) n ch' (closed st) ws' (emitted st ++ new))
          end
      | None => None
      end
  end.

(** The coordinator moves when it can, else the workers have their turn. *)
Definition next (fs : FileSystem) (numWorkers : Z) (studioDirs : list string)
  (st : state) : option state :=
  let '(mkState c n ch cl ws em) := st in
  match c with
  | Spawning i =>
      if (i <? numWorkers)%Z
      then Some (mkState (Spawning (i + 1)) (S n) ch cl (ws ++ [Receiving]) em)
      else Some (mkState (Sending studioDirs) n ch cl ws em)
  | Sending (s :: rest) =>
      if Nat.ltb (List.length ch) (List.length studioDirs)
      then Some (mkState (Sending rest) n (ch ++ [s]) cl ws em)
      else workersMove fs st
  | Sending [] => Some (mkState Closing n ch cl ws em)
  | Closing => Some (mkState Waiting n ch true ws em)
  | Waiting =>
      match n with
      | O => Some (mkState (Checking studioDirs) 0 ch cl ws em)
      | S _ => workersMove fs st
      end
  | Checking (s :: rest) =>
      Some (mkState (Checking rest) n ch cl ws (em ++ emptyCheck fs s))
  | Checking [] => Some (mkState Returned n ch cl ws em)
  | Returned => None
  end.

Fixpoint iterate (fs : FileSystem) (numWorkers : Z) (studioDirs : list string)
  (fuel : nat) (st : state) : state :=
  match fuel with
  | O => st
  | S fuel' =>
      match next fs numWorkers studioDirs st with
      | Some st' => iterate fs numWorkers studioDirs fuel' st'
      | None => st
      end
  end.

(** [scanLibrary] under that schedule, with [fuel] steps at most. *)
Definition runScan (fs : FileSystem) (libraryPath : string) (numWorkers : Z)
  (fuel : nat) : option (list emission) :=
  match scanPrologue fs libraryPath with
  | Rejected => Some []
  | Unreadable es => Some es
  | Ready es studioDirs =>
      let st := iterate fs numWorkers studioDirs fuel (initial es) in
      match pc st with
      | Returned => Some (emitted st)
      | _ => None
      end
  end.

(** ** What is left to do in a state, and how much *)

Definition pendingOf (w : worker) : list emission :=
  match w with
  | Processing pending => pending
  | _ => []
  end.

(** The studios that the coordinator has still to send. *)
Definition toSend (studioDirs : list string) (c : coordinator) : list string :=
  match c with
  | Spawning _ => studioDirs
  | Sending rest => rest
  | _ => []
  end.

(** The studios that the last loop has still to check. *)
Definition toCheck (studioDirs : list string) (c : coordinator) : list string :=
  match c with
  | Checking rest => rest
  | Returned => []
  | _ => studioDirs
  end.

(** The appends that have not been made yet. *)
Definition remaining (fs : FileSystem) (studioDirs : list string) (st : state)
  : list emission :=
  flat_map pendingOf (workers st)
  ++ flat_map (processStudio fs) (studioChan st)
  ++ flat_map (processStudio fs) (toSend studioDirs (pc st))
  ++ secondPass fs (toCheck studioDirs (pc st)).

(** The workers that have not called [wg.Done()]. *)
Fixpoint live (ws : list worker) : nat :=
  match ws with
  | [] => 0
  | Exited :: rest => live rest
  | _ :: rest => S (live rest)
  end.

(** The coordinator is past [wg.Wait()]. *)
Definition pastWait (c : coordinator) : bool :=
  match c with
  | Checking _ | Returned => true
  | _ => false
  end.

(** The coordinator is past [close(studioChan)]. *)
Definition pastClose (c : coordinator) : bool :=
  match c with
  | Waiting | Checking _ | Returned => true
  | _ => false
  end.

(** A bound on the number of steps that a state can still take. *)
Definition workerWeight (w : worker) : nat :=
  match w with
  | Receiving => 1
  | Processing pending => 2 + List.length pending
  | Exited => 0
  end.

Definition studioWeight (fs : FileSystem) (studioPath : string) : nat :=
  2 + List.length (processStudio fs studioPath).

Definition queueWeight (fs : FileSystem) (queue : list string) : nat :=
  list_sum (map (studioWeight fs) queue).

Definition coordinatorWeight (fs : FileSystem) (numWorkers : Z)
  (studioDirs : list string) (c : coordinator) : nat :=
  match c with
  | Spawning i =>
      5 + List.length studioDirs + queueWeight fs studioDirs
      + List.length studioDirs + 2 * Z.to_nat (numWorkers - i)
  | Sending rest =>
      4 + List.length studioDirs + queueWeight fs rest + List.length rest
  | Closing => 3 + List.length studioDirs
  | Waiting => 2 + List.length studioDirs
  | Checking rest => 1 + List.length rest
  | Returned => 0
  end.

Definition measure (fs : FileSystem) (numWorkers : Z) (studioDirs : list string)
  (st : state) : nat :=
  coordinatorWeight fs numWorkers studioDirs (pc st)
  + list_sum (map workerWeight (workers st))
  + queueWeight fs (studioChan st).

(** ** File-system snapshots to run the scan on *)

Definition file (name : string) : DirEntry := mkEntry name false.
Definition dir (name : string) : DirEntry := mkEntry name true.

Fixpoint find (dirs : list (string * outcome (list DirEntry))) (path : string)
  : option (outcome (list DirEntry)) :=
  match dirs with
  | [] => None
  | (p, r) :: rest => if String.eqb p path then Some r else find rest path
  end.

(** The snapshot in which the directories are those of [dirs], each
    with what reading it gives. *)
Definition snapshot (dirs : list (string * outcome (list DirEntry))) : FileSystem :=
  mkFS
    (fun path =>
       match find dirs path with
       | Some _ => Ok true
       | None => Failed "no such file or directory"
       end)
    (fun path =>
       match find dirs path with
       | Some r => r
       | None => Failed "no such file or directory"
       end).

(** A library with a valid title, an orphaned title that has a
    subdirectory, an empty title, an unreadable title, an empty studio,
    an unreadable studio, and files at the library and studio levels. *)
Definition library : FileSystem :=
  snapshot
    [ ("lib", Ok [ dir "Locked"; dir "StudioA"; dir "StudioB";
                   file "movie.mkv"; file "movie2.nfo"; file "readme.txt" ]);
      ("lib/Locked", Failed "permission denied");
      ("lib/StudioA", Ok [ dir "Movie1"; dir "Movie2"; dir "Movie3";
                           dir "Movie4"; file "stray.nfo" ]);
      ("lib/StudioA/Movie1", Ok [ dir "MOVIE.TRICKPLAY"; dir "extras";
                                  file "movie.MKV"; file "movie.nfo" ]);
      ("lib/StudioA/Movie2", Ok [ dir "extras"; file "poster.jpg" ]);
      ("lib/StudioA/Movie3", Ok []);
      ("lib/StudioA/Movie4", Failed "permission denied");
      ("lib/StudioB", Ok []) ].

(** A library level where a picture has an upper-case extension and a
    video has the picture's whole name as its basename. *)
Definition clips : FileSystem :=
  snapshot [ ("lib", Ok [ file "clip.JPG"; file "clip.jpg.mkv" ]) ].

(** A studio level with [movie.mkv] and the unrelated [movie2.nfo]. *)
Definition sequel : FileSystem :=
  snapshot [ ("lib", Ok [ dir "Studio" ]);
             ("lib/Studio", Ok [ file "movie.mkv"; file "movie2.nfo" ]) ].


(** The two end-to-end scenarios and the basename-match scenario of
    the specification. *)
Definition scenarioOrphan : FileSystem :=
  snapshot
    [ ("lib", Ok [ dir "StudioA"; dir "StudioB" ]);
      ("lib/StudioA", Ok [ dir "Movie1"; dir "Movie2" ]);
      ("lib/StudioA/Movie1", Ok [ file "movie.mkv"; file "movie.nfo" ]);
      ("lib/StudioA/Movie2", Ok [ file "poster.jpg" ]);
      ("lib/StudioB", Ok []) ].

Definition scenarioStray : FileSystem :=
  snapshot
    [ ("lib", Ok [ dir "Studio1"; file "readme.txt" ]);
      ("lib/Studio1", Ok []) ].

Definition scenarioMatch : FileSystem :=
  snapshot
    [ ("lib", Ok [ file "Movie.NFO"; file "deleted.nfo"; file "movie-poster.jpg";
                   file "movie.mkv"; file "movie.nfo" ]) ].

(** ** The vocabulary of the specification *)

Module Spec.

(** The fixed set of video extensions. *)
Definition videoExtensionSet : list string := [".mkv"; ".mp4"; ".avi"; ".m4v"].

(** A video file: a file whose lowercased extension is in that set. *)
Definition isVideoFile (e : DirEntry) : bool :=
  negb (IsDir e)
  && existsb (String.eqb (ToLower (Ext (Name e)))) videoExtensionSet.

(** The basename: the filename minus its trailing extension. *)
Definition basename (name : string) : string := TrimSuffix name (Ext name).

(** The basename-match relation: both basenames lowercased, the one of
    the file starts with the one of the video. *)
Definition matched (name video : string) : bool :=
  HasPrefix (ToLower (basename name)) (ToLower (basename video)).

(** A file has a matching video among the entries of its level. *)
Definition hasMatch (entries : list DirEntry) (name : string) : bool :=
  existsb (fun v => isVideoFile v && matched name (Name v)) entries.

(** What the off-level rule makes of a file. *)
Inductive offLevelClass : Type :=
| WarnVideo
| WarnMatched
| Orphan.

Definition classify (entries : list DirEntry) (e : DirEntry) : offLevelClass :=
  if isVideoFile e then WarnVideo
  else if hasMatch entries (Name e) then WarnMatched
  else Orphan.


(** A subdirectory that is not a recognized metadata subdirectory: its
    lowercased name does not end with [.trickplay]. *)
Definition isUnexpectedSubdir (e : DirEntry) : bool :=
  IsDir e && negb (HasSuffix (ToLower (Name e)) ".trickplay").

(** A name as a directory listing gives it: not empty, no slash. *)
Definition validName (name : string) : Prop :=
  name <> "" /\ hasSeparator name = false.

End Spec.

(** Equality of emissions is decidable, to count them. *)
Definition warning_eq_dec (x y : warning) : {x = y} + {x <> y}.
Proof. decide equality; apply string_dec. Defined.

Definition emission_eq_dec (x y : emission) : {x = y} + {x <> y}.
Proof. decide equality; try apply string_dec; apply warning_eq_dec. Defined.





(** The files of a listing, as the first loop of [checkDirectChildren]
    collects them. *)
Definition filesOf (dirPath : string) (entries : list DirEntry) : list string :=
  map (fun e => Join dirPath (Name e)) (filter (fun e => negb (IsDir e)) entries).

(** The keys of [videoBasenames] after the first loop. *)
Definition videoBasenamesOf (dirPath : string) (entries : list DirEntry)
  : list string :=
  snd (fold_left (collectStep dirPath) entries ([], [])).

(** The paths that a list of emissions appends to each sequence. *)
Definition orphanedFoldersOf (es : list emission) : list string :=
  flat_map (fun e => match e with OrphanedFolder p => [p] | _ => [] end) es.

Definition orphanedFilesOf (es : list emission) : list string :=
  flat_map (fun e => match e with OrphanedFile p => [p] | _ => [] end) es.

Definition emptyFoldersOf (es : list emission) : list string :=
  flat_map (fun e => match e with EmptyFolder p => [p] | _ => [] end) es.

Definition warningTextsOf (es : list emission) : list string :=
  flat_map (fun e => match e with StructureWarning w => [warningText w] | _ => [] end) es.

(** The appends of [scanLibrary] when its studios are processed one
    after the other. *)
Definition scanSequential (fs : FileSystem) (libraryPath : string) : list emission :=
  match scanPrologue fs libraryPath with
  | Rejected => []
  | Unreadable es => es
  | Ready es studioDirs => scanInOrder fs es studioDirs
  end.

(** The worker counts of the concurrency test. *)
Definition testedWorkerCounts : list Z := [1; 4; 10; 20; 50]%Z.

(** The state in which [runScan] stops. *)
Definition finalState (fs : FileSystem) (libraryPath : string) (numWorkers : Z)
  (fuel : nat) : state :=
  match scanPrologue fs libraryPath with
  | Ready es studioDirs => iterate fs numWorkers studioDirs fuel (initial es)
  | _ => initial []
  end.

(** The appends of the scan of the example library with [n] workers,
    under the schedule of [runScan]. *)
Definition scanWith (numWorkers : Z) : list emission :=
  match runScan library "lib" numWorkers 200 with
  | Some es => es
  | None => []
  end.

(** ** Paths and what the scan says about them *)

(** The path that an emission is about. *)
Definition pathOf (e : emission) : string :=
  match e with
  | OrphanedFolder p | OrphanedFile p | EmptyFolder p => p
  | StructureWarning w => warningPath w
  end.

(** [path] lies inside the directory [dirPath]. *)
Definition inside (dirPath path : string) : bool :=
  HasPrefix path (dirPath ++ "/").

(** The number of slashes of a path. *)
Fixpoint countSeparators (path : string) : nat :=
  match path with
  | EmptyString => 0
  | String c rest =>
      (if isPathSeparator c then 1 else 0) + countSeparators rest
  end.

(** A snapshot is well formed when every listing has valid names, no
    two of them equal. *)
Definition wellFormed (fs : FileSystem) : Prop :=
  forall dirPath entries,
    ReadDir fs dirPath = Ok entries ->
    NoDup (map Name entries)
    /\ Forall (fun e => Spec.validName (Name e)) entries.

(** What the scan appends about a studio directory itself, about a
    title directory itself, and about an entry of a title directory. *)
Definition studioVerdict (fs : FileSystem) (studioPath : string) : list emission :=
  match ReadDir fs studioPath with
  | Failed err => [StructureWarning (CannotReadStudio studioPath err)]
  | Ok [] => [EmptyFolder studioPath]
  | Ok (_ :: _) => []
  end.

Definition titleVerdict (fs : FileSystem) (titlePath : string) : list emission :=
  match ReadDir fs titlePath with
  | Failed err => [StructureWarning (CannotReadTitle titlePath err)]
  | Ok [] => [EmptyFolder titlePath]
  | Ok (e :: entries) =>
      if existsb Spec.isVideoFile (e :: entries) then []
      else [OrphanedFolder titlePath]
  end.

Definition subdirVerdict (titlePath : string) (e : DirEntry) : list emission :=
  if Spec.isUnexpectedSubdir e
  then [StructureWarning (UnexpectedSubdir (Join titlePath (Name e)))]
  else [].

(** [scanned fs libraryPath depth dirPath]: the scan of [libraryPath]
    reads the directory [dirPath], [depth] levels below the library. *)
Inductive scanned (fs : FileSystem) (libraryPath : string)
  : nat -> string -> Prop :=
| scanned_library : scanned fs libraryPath 0 libraryPath
| scanned_child depth dirPath entries e :
    scanned fs libraryPath depth dirPath ->
    ReadDir fs dirPath = Ok entries ->
    In e entries -> IsDir e = true ->
    scanned fs libraryPath (S depth) (Join dirPath (Name e)).

(** What the scan appends about the entry [e] of a directory at
    [depth]: a file of the library or of a studio, a studio, a title,
    an entry of a title. *)
Definition verdict (fs : FileSystem) (depth : nat) (dirPath : string)
  (entries : list DirEntry) (e : DirEntry) : list emission :=
  match depth, IsDir e with
  | 0, false =>
      categorize "library" (videoBasenamesOf dirPath entries) (Join dirPath (Name e))
  | 0, true => studioVerdict fs (Join dirPath (Name e))
  | 1, false =>
      categorize "studio" (videoBasenamesOf dirPath entries) (Join dirPath (Name e))
  | 1, true => titleVerdict fs (Join dirPath (Name e))
  | _, _ => subdirVerdict dirPath e
  end.

(** [about fs libraryPath path v]: [path] is an entry of a directory
    that the scan reads, and [v] is what the scan appends about it. *)
Inductive about (fs : FileSystem) (libraryPath : string)
  : string -> list emission -> Prop :=
| about_entry depth dirPath entries e :
    depth <= 2 ->
    scanned fs libraryPath depth dirPath ->
    ReadDir fs dirPath = Ok entries ->
    In e entries ->
    about fs libraryPath (Join dirPath (Name e))
          (verdict fs depth dirPath entries e).

(** The listings of a snapshot have valid names, no two equal. *)
Definition validNameb (name : string) : bool :=
  negb (String.eqb name "") && negb (hasSeparator name).

Fixpoint distinct (names : list string) : bool :=
  match names with
  | [] => true
  | n :: rest => negb (existsb (String.eqb n) rest) && distinct rest
  end.

Definition listingOk (r : outcome (list DirEntry)) : bool :=
  match r with
  | Failed _ => true
  | Ok entries =>
      distinct (map Name entries) && forallb (fun e => validNameb (Name e)) entries
  end.

(** The invariant of the specification that nothing inside an Orphaned
    Folder has an entry of its own in any sequence. *)
Definition subsumesContents (es : list emission) : Prop :=
  forall titlePath e,
    In (OrphanedFolder titlePath) es -> In e es ->
    inside titlePath (pathOf e) = false.

(** ** [main]: the batch of libraries and the deletion pass *)

(** The loop [for _, libraryPath := range libraryPaths] of [main]: the
    scans run one after the other on the same result, and [es] is what
    they append to it. The file system is not changed by a scan, so
    every scan of the batch sees the same snapshot. *)
Inductive scanLibraries (fs : FileSystem) (numWorkers : Z)
  : list string -> list emission -> Prop :=
| scanLibraries_done : scanLibraries fs numWorkers [] []
| scanLibraries_next libraryPath libraryPaths es1 es2 :
    scanLibrary fs libraryPath numWorkers es1 ->
    scanLibraries fs numWorkers libraryPaths es2 ->
    scanLibraries fs numWorkers (libraryPath :: libraryPaths) (es1 ++ es2).

(** The calls of the deletion pass into package [os], on a file system
    [W] that they change: [os.RemoveAll] and [os.Remove] give the new
    file system and the error, if any; [StatNotExist path w] is
    [os.IsNotExist(err)] for the error of [os.Stat(path)]. *)
Record OS (W : Type) := mkOS {
  RemoveAll : string -> W -> W * option string;
  StatNotExist : string -> W -> bool;
  Remove : string -> W -> W * option string
}.

Arguments RemoveAll {W} _ _ _.
Arguments StatNotExist {W} _ _ _.
Arguments Remove {W} _ _ _.

(** What the three calls are known to do, in terms of the paths that a
    file system [has]: a removal takes away nothing but its path and,
    for [os.RemoveAll], what lies inside it; a removal that returns no
    error leaves its path absent; no call creates a path; a path that
    [os.Stat] reports as not existing is absent. *)
Record lawful {W : Type} (os : OS W) (has : W -> string -> bool) : Prop := mkLawful {
  RemoveAll_frame : forall p q w,
    q <> p -> inside p q = false -> has (fst (RemoveAll os p w)) q = has w q;
  RemoveAll_done : forall p w,
    snd (RemoveAll os p w) = None -> has (fst (RemoveAll os p w)) p = false;
  RemoveAll_shrinks : forall p q w,
    has (fst (RemoveAll os p w)) q = true -> has w q = true;
  Remove_frame : forall p q w,
    q <> p -> has (fst (Remove os p w)) q = has w q;
  Remove_done : forall p w,
    snd (Remove os p w) = None -> has (fst (Remove os p w)) p = false;
  Remove_shrinks : forall p q w,
    has (fst (Remove os p w)) q = true -> has w q = true;
  StatNotExist_absent : forall p w,
    StatNotExist os p w = true -> has w p = false
}.

(** A line that the deletion pass prints for one removal. *)
Inductive line : Type :=
| Deleted (path : string)
| FailedToDelete (path err : string).

Definition linePath (l : line) : string :=
  match l with
  | Deleted p | FailedToDelete p _ => p
  end.

(** The state of the deletion pass: the file system, the counters
    [deleted] and [failed], and the lines printed so far. *)
Record deletion (W : Type) := mkDeletion {
  world : W;
  deleted : nat;
  failed : nat;
  printed : list line
}.

Arguments mkDeletion {W} _ _ _ _.
Arguments world {W} _.
Arguments deleted {W} _.
Arguments failed {W} _.
Arguments printed {W} _.

(** The outcome of one [os.RemoveAll] or [os.Remove], counted and
    printed. *)
Definition tally {W : Type} (d : deletion W) (path : string)
  (r : W * option string) : deletion W :=
  match r with
  | (w, Some err) =>
      mkDeletion w (deleted d) (S (failed d)) (printed d ++ [FailedToDelete path err])
  | (w, None) =>
      mkDeletion w (S (deleted d)) (failed d) (printed d ++ [Deleted path])
  end.

(** One turn of [for _, folder := range result.OrphanedFolders]. *)
Definition removeFolder {W : Type} (os : OS W) (d : deletion W) (folder : string)
  : deletion W :=
  tally d folder (RemoveAll os folder (world d)).

(** One turn of the loops over [result.OrphanedFiles] and
    [result.EmptyFolders]: [continue] when [os.Stat] says that the path
    does not exist, [os.Remove] otherwise. *)
Definition removeIfPresent {W : Type} (os : OS W) (d : deletion W) (path : string)
  : deletion W :=
  if StatNotExist os path (world d) then d
  else tally d path (Remove os path (world d)).

(** The deletion pass of [main]: the orphaned folders, then the
    orphaned files, then the empty folders from the last one to the
    first. *)
Definition executeDeletions {W : Type} (os : OS W) (result : CleanupResult) (w : W)
  : deletion W :=
  let d := fold_left (removeFolder os) (OrphanedFolders result) (mkDeletion w 0 0 []) in
  let d := fold_left (removeIfPresent os) (OrphanedFiles result) d in
  fold_left (removeIfPresent os) (rev (EmptyFolders result)) d.

(** [total] of the dry run. *)
Definition dryRunTotal (result : CleanupResult) : nat :=
  List.length (OrphanedFolders result) + List.length (OrphanedFiles result)
  + List.length (EmptyFolders result).

(** How [main] ends, once the flags are parsed: with the usage text
    and [os.Exit(1)], after a dry run with the result and its [total],
    or after the deletion pass. *)
Inductive mainOutcome (W : Type) : Type :=
| Usage
| DryRun (result : CleanupResult) (total : nat)
| Executed (result : CleanupResult) (d : deletion W).

Arguments Usage {W}.
Arguments DryRun {W} _ _.
Arguments Executed {W} _ _.

(** [main] with the flags [execute] and [workers] and the arguments
    [libraryPaths], on the file system [w] that the scans see as the
    snapshot [fs]. *)
Inductive mainRuns {W : Type} (os : OS W) (fs : FileSystem) (execute : bool)
  (workers : Z) (libraryPaths : list string) (w : W) : mainOutcome W -> Prop :=
| main_usage :
    List.length libraryPaths = 0 ->
    mainRuns os fs execute workers libraryPaths w Usage
| main_dry_run es :
    List.length libraryPaths <> 0 -> execute = false ->
    scanLibraries fs workers libraryPaths es ->
    mainRuns os fs execute workers libraryPaths w
      (DryRun (run es emptyResult) (dryRunTotal (run es emptyResult)))
| main_executed es :
    List.length libraryPaths <> 0 -> execute = true ->
    scanLibraries fs workers libraryPaths es ->
    mainRuns os fs execute workers libraryPaths w
      (Executed (run es emptyResult)
         (executeDeletions os (run es emptyResult) w)).

(** A file system that is the list of its paths, where no call fails
    for lack of permission: [os.RemoveAll] takes away the path and
    what is inside it, [os.Remove] a path that exists and has nothing
    inside it. *)
Definition pathsHas (w : list string) (path : string) : bool :=
  existsb (String.eqb path) w.

Definition pathsOS : OS (list string) :=
  mkOS (list string)
    (fun p w =>
       (filter (fun q => negb (String.eqb q p || inside p q)) w, None))
    (fun p w => negb (pathsHas w p))
    (fun p w =>
       if pathsHas w p then
         if existsb (inside p) w then (w, Some "directory not empty")
         else (filter (fun q => negb (String.eqb q p)) w, None)
       else (w, Some "no such file or directory")).

(** The paths of the example library. *)
Definition libraryTree : list string :=
  [ "lib"; "lib/Locked"; "lib/StudioA"; "lib/StudioB"; "lib/movie.mkv";
    "lib/movie2.nfo"; "lib/readme.txt"; "lib/StudioA/Movie1";
    "lib/StudioA/Movie2"; "lib/StudioA/Movie3"; "lib/StudioA/Movie4";
    "lib/StudioA/stray.nfo"; "lib/StudioA/Movie1/MOVIE.TRICKPLAY";
    "lib/StudioA/Movie1/extras"; "lib/StudioA/Movie1/movie.MKV";
    "lib/StudioA/Movie1/movie.nfo"; "lib/StudioA/Movie2/extras";
    "lib/StudioA/Movie2/poster.jpg" ].

(** The sequence of the result that an emission goes to. *)
Inductive sequence : Type :=
| InOrphanedFolders
| InOrphanedFiles
| InEmptyFolders
| InStructureWarnings.

Definition sequenceOf (e : emission) : sequence :=
  match e with
  | OrphanedFolder _ => InOrphanedFolders
  | OrphanedFile _ => InOrphanedFiles
  | EmptyFolder _ => InEmptyFolders
  | StructureWarning _ => InStructureWarnings
  end.

(** Two entries of the same kind whose names differ in letter case
    only. *)
Definition sameUpToCase (a b : DirEntry) : Prop :=
  IsDir a = IsDir b /\ ToLower (Name a) = ToLower (Name b).

(** The title folder [Movie1] of the example library with the letter
    case of its entries changed. *)
Definition recased : FileSystem :=
  snapshot
    [ ("lib/StudioA/Movie1", Ok [ dir "movie.TrickPlay"; dir "EXTRAS";
                                  file "MOVIE.mkv"; file "Movie.NFO" ]) ].


(** A library path that [scanLibrary] gives up on: [os.Stat] fails,
    the path is no directory, or [os.ReadDir] fails. *)
Definition unusable (fs : FileSystem) (libraryPath : string) : Prop :=
  (exists err, Stat fs libraryPath = Failed err)
  \/ Stat fs libraryPath = Ok false
  \/ (exists err, ReadDir fs libraryPath = Failed err).

(** The appends of the scans of a batch, under the schedule of
    [runScan]. *)
Fixpoint runBatch (fs : FileSystem) (numWorkers : Z) (fuel : nat)
  (libraryPaths : list string) : list emission :=
  match libraryPaths with
  | [] => []
  | libraryPath :: rest =>
      match runScan fs libraryPath numWorkers fuel with
      | Some es => es
      | None => []
      end ++ runBatch fs numWorkers fuel rest
  end.

(** [path] is the directory [dirPath] or lies inside it. *)
Definition under (dirPath path : string) : Prop :=
  path = dirPath \/ inside dirPath path = true.

(** Where a name ends in a path: at the end of the path or at a
    slash. *)
Definition boundary (rest : string) : Prop :=
  rest = ""%string \/ exists rest', rest = ("/" ++ rest')%string.

(** * Properties *)

(** ** Strings and paths *)

Section PathFacts.

Local Open Scope string_scope.

Lemma length_append (s t : string) :
  String.length (s ++ t) = String.length s + String.length t.
Proof. induction s as [|c s IH]; simpl; [reflexivity | now rewrite IH]. Qed.

Lemma append_assoc (s t u : string) : (s ++ t) ++ u = s ++ t ++ u.
Proof. induction s as [|c s IH]; simpl; [reflexivity | now rewrite IH]. Qed.

Lemma append_empty_r (s : string) : s ++ "" = s.
Proof. induction s as [|c s IH]; simpl; [reflexivity | now rewrite IH]. Qed.

Lemma append_inv_head (s t u : string) : s ++ t = s ++ u -> t = u.
Proof.
  induction s as [|c s IH]; simpl; intros H; [exact H|].
  injection H as H. now apply IH.
Qed.

Lemma append_inv_tail (s t u : string) : s ++ u = t ++ u -> s = t.
Proof.
  revert t. induction s as [|c s IH]; intros [|d t] H; simpl in H.
  - reflexivity.
  - apply (f_equal String.length) in H. simpl in H.
    rewrite length_append in H. lia.
  - apply (f_equal String.length) in H. simpl in H.
    rewrite length_append in H. lia.
  - injection H as Hc H. subst d. f_equal. now apply IH.
Qed.











Lemma HasPrefix_append (s t : string) : HasPrefix (s ++ t) s = true.
Proof.
  unfold HasPrefix. induction s as [|c s IH]; simpl.
  - destruct t; reflexivity.
  - destruct (ascii_dec c c) as [_|n]; [exact IH | now destruct n].
Qed.

Lemma HasPrefix_starts (s pre : string) :
  HasPrefix s pre = true <-> exists back, s = pre ++ back.
Proof.
  split.
  - unfold HasPrefix. revert s. induction pre as [|c pre IH]; intros s H.
    + now exists s.
    + destruct s as [|d s]; simpl in H; [discriminate|].
      destruct (ascii_dec c d) as [->|]; [|discriminate].
      destruct (IH s H) as [back ->]. now exists back.
  - intros [back ->]. apply HasPrefix_append.
Qed.


Lemma hasSeparator_append (s t : string) :
  hasSeparator (s ++ t) = hasSeparator s || hasSeparator t.
Proof.
  induction s as [|c s IH]; simpl; [reflexivity|].
  now rewrite IH, orb_assoc.
Qed.

Lemma stripTrailingSlashes_name (name : string) :
  Spec.validName name -> stripTrailingSlashes name = name.
Proof.
  intros [Hne Hsep]. induction name as [|c name IH]; [now destruct Hne|].
  simpl in Hsep. apply orb_false_iff in Hsep as [Hc Hsep]. simpl.
  destruct name as [|d name].
  - simpl. now rewrite Hc.
  - rewrite IH; [reflexivity | discriminate | exact Hsep].
Qed.

Lemma stripTrailingSlashes_append (front name : string) :
  Spec.validName name -> stripTrailingSlashes (front ++ name) = front ++ name.
Proof.
  intros Hname. induction front as [|c front IH]; simpl.
  - now apply stripTrailingSlashes_name.
  - rewrite IH. destruct (front ++ name) eqn:E; [|reflexivity].
    destruct Hname as [Hne _]. destruct front; simpl in E; [now destruct Hne | discriminate].
Qed.

Lemma lastElement_Join (dirPath name : string) :
  hasSeparator name = false -> lastElement (Join dirPath name) = name.
Proof.
  intros Hsep. unfold Join. induction dirPath as [|c dirPath IH]; simpl.
  - now rewrite Hsep.
  - rewrite hasSeparator_append. simpl. now rewrite orb_true_r.
Qed.

(** [filepath.Base] gives back the name that [filepath.Join] added. *)
Lemma Base_Join (dirPath name : string) :
  Spec.validName name -> Base (Join dirPath name) = name.
Proof.
  intros Hname. unfold Base.
  assert (Hpath : Join dirPath name <> "").
  { unfold Join. destruct dirPath; discriminate. }
  apply String.eqb_neq in Hpath. rewrite Hpath.
  assert (Hstrip : stripTrailingSlashes (Join dirPath name) = Join dirPath name).
  { unfold Join. rewrite <- append_assoc. now apply stripTrailingSlashes_append. }
  rewrite Hstrip, lastElement_Join by apply Hname.
  destruct Hname as [Hne _]. apply String.eqb_neq in Hne. now rewrite Hne.
Qed.

(** Two joined paths are equal only for the same directory and name. *)
Lemma Join_inj (d1 d2 n1 n2 : string) :
  hasSeparator n1 = false -> hasSeparator n2 = false ->
  Join d1 n1 = Join d2 n2 -> d1 = d2 /\ n1 = n2.
Proof.
  intros H1 H2 E.
  assert (En : n1 = n2).
  { rewrite <- (lastElement_Join d1 n1 H1), <- (lastElement_Join d2 n2 H2).
    now rewrite E. }
  subst n2. split; [|reflexivity].
  unfold Join in E. now apply append_inv_tail in E.
Qed.

(** A joined path is never the directory it was joined to, nor a path
    joined below a path joined to that directory. *)
Lemma Join_longer (dirPath name : string) : Join dirPath name <> dirPath.
Proof.
  intros E. apply (f_equal String.length) in E.
  unfold Join in E. rewrite length_append in E. simpl in E. lia.
Qed.


End PathFacts.

(** ** The title-folder processor *)

Lemma lookup_videoExtensions (ext : string) :
  lookup videoExtensions ext = existsb (String.eqb ext) Spec.videoExtensionSet.
Proof.
  unfold videoExtensions, Spec.videoExtensionSet, lookup, existsb.
  rewrite !(String.eqb_sym ext).
  destruct (String.eqb ".mkv" ext); [reflexivity|].
  destruct (String.eqb ".mp4" ext); [reflexivity|].
  destruct (String.eqb ".avi" ext); [reflexivity|].
  destruct (String.eqb ".m4v" ext); reflexivity.
Qed.

Lemma isMetadataSubdir_trickplay (name : string) :
  isMetadataSubdir name = HasSuffix (ToLower name) ".trickplay".
Proof. unfold isMetadataSubdir. simpl. apply orb_false_r. Qed.

Lemma titleStep_entry (e : DirEntry) (hasVideoFile : bool)
  (unexpectedSubdirs : list string) :
  titleStep (hasVideoFile, unexpectedSubdirs) e
  = (hasVideoFile || Spec.isVideoFile e,
     unexpectedSubdirs ++ (if Spec.isUnexpectedSubdir e then [Name e] else [])).
Proof.
  unfold titleStep, Spec.isVideoFile, Spec.isUnexpectedSubdir.
  rewrite isMetadataSubdir_trickplay, <- lookup_videoExtensions.
  destruct (IsDir e); cbn [negb andb].
  - rewrite orb_false_r.
    destruct (HasSuffix (ToLower (Name e)) ".trickplay"); cbn [negb];
      [now rewrite app_nil_r | reflexivity].
  - rewrite app_nil_r.
    destruct (lookup videoExtensions (ToLower (Ext (Name e))));
      [now rewrite orb_true_r | now rewrite orb_false_r].
Qed.

(** The loop of [processTitleFolder] finds whether a video file is
    present and lists the unexpected subdirectories in order. *)
Lemma titleStep_fold (entries : list DirEntry) (hasVideoFile : bool)
  (unexpectedSubdirs : list string) :
  fold_left titleStep entries (hasVideoFile, unexpectedSubdirs)
  = (hasVideoFile || existsb Spec.isVideoFile entries,
     unexpectedSubdirs ++ map Name (filter Spec.isUnexpectedSubdir entries)).
Proof.
  revert hasVideoFile unexpectedSubdirs.
  induction entries as [|e entries IH]; intros hv us.
  - cbn [fold_left existsb filter map]. now rewrite orb_false_r, app_nil_r.
  - cbn [fold_left existsb filter]. rewrite titleStep_entry, IH.
    rewrite orb_assoc, <- app_assoc.
    now destruct (Spec.isUnexpectedSubdir e).
Qed.

(** [processTitleFolder] on a folder that can be read. *)
Lemma processTitleFolder_read (fs : FileSystem) (titlePath : string)
  (entries : list DirEntry) :
  ReadDir fs titlePath = Ok entries ->
  processTitleFolder fs titlePath
  = match entries with
    | [] => [EmptyFolder titlePath]
    | _ :: _ =>
        map (fun e => StructureWarning (UnexpectedSubdir (Join titlePath (Name e))))
            (filter Spec.isUnexpectedSubdir entries)
        ++ (if existsb Spec.isVideoFile entries then [] else [OrphanedFolder titlePath])
    end.
Proof.
  intros Hread. unfold processTitleFolder. rewrite Hread.
  destruct entries as [|e entries]; [reflexivity|].
  cbv beta iota delta [List.length Nat.eqb Nat.ltb Nat.leb].
  rewrite titleStep_fold. cbv beta iota. rewrite app_nil_l, map_map.
  cbn [orb]. rewrite andb_true_r.
  now destruct (existsb Spec.isVideoFile (e :: entries)).
Qed.












(** ** Read failures *)

Lemma processStudio_read (fs : FileSystem) (studioPath : string)
  (titleEntries : list DirEntry) :
  ReadDir fs studioPath = Ok titleEntries ->
  processStudio fs studioPath
  = checkDirectChildren fs studioPath "studio"
    ++ processTitles fs studioPath titleEntries.
Proof. intros Hread. unfold processStudio. now rewrite Hread. Qed.

Lemma processTitles_app (fs : FileSystem) (studioPath : string)
  (entries1 entries2 : list DirEntry) :
  processTitles fs studioPath (entries1 ++ entries2)
  = processTitles fs studioPath entries1 ++ processTitles fs studioPath entries2.
Proof. apply flat_map_app. Qed.

(** C9. A title or studio directory that cannot be read gets one
    structure warning with its path and the error, and nothing else: no
    off-level entry, and no Empty Folder for the studio; the titles
    before and after an unreadable title, and the studios before and
    after an unreadable studio, are processed as usual; the off-level
    check of a directory that cannot be read emits nothing. *)
Theorem read_failure_emissions (fs : FileSystem) (path err : string) :
  ReadDir fs path = Failed err ->
  (processTitleFolder fs path = [StructureWarning (CannotReadTitle path err)]
   /\ warningText (CannotReadTitle path err)
      = ("Cannot read title directory: " ++ path ++ " (" ++ err ++ ")")%string)
  /\ (processStudio fs path = [StructureWarning (CannotReadStudio path err)]
      /\ emptyCheck fs path = []
      /\ warningText (CannotReadStudio path err)
         = ("Cannot read studio directory: " ++ path ++ " (" ++ err ++ ")")%string)
  /\ (forall level, checkDirectChildren fs path level = [])
  /\ (forall studioPath before bad after,
        ReadDir fs studioPath = Ok (before ++ bad :: after) ->
        IsDir bad = true ->
        Join studioPath (Name bad) = path ->
        processStudio fs studioPath
        = checkDirectChildren fs studioPath "studio"
          ++ processTitles fs studioPath before
          ++ [StructureWarning (CannotReadTitle path err)]
          ++ processTitles fs studioPath after)
  /\ (forall before after,
        flat_map (processStudio fs) (before ++ path :: after)
        = flat_map (processStudio fs) before
          ++ [StructureWarning (CannotReadStudio path err)]
          ++ flat_map (processStudio fs) after).
Proof.
  intros Hfail.
  assert (Htitle : processTitleFolder fs path
                   = [StructureWarning (CannotReadTitle path err)]).
  { unfold processTitleFolder. now rewrite Hfail. }
  assert (Hcheck : forall level, checkDirectChildren fs path level = []).
  { intros level. unfold checkDirectChildren. now rewrite Hfail. }
  assert (Hstudio : processStudio fs path
                    = [StructureWarning (CannotReadStudio path err)]).
  { unfold processStudio. now rewrite Hcheck, Hfail. }
  split; [split; [exact Htitle | reflexivity]|].
  split; [split; [exact Hstudio | split; [|reflexivity]]|].
  { unfold emptyCheck, isDirEmpty. now rewrite Hfail. }
  split; [exact Hcheck|]. split.
  - intros studioPath before bad after Hread Hdir Hpath.
    rewrite (processStudio_read _ _ _ Hread), processTitles_app.
    do 2 f_equal. unfold processTitles at 1. cbn [flat_map].
    now rewrite Hdir, Hpath, Htitle.
  - intros before after. rewrite flat_map_app. cbn [flat_map].
    now rewrite Hstudio.
Qed.

(** The unreadable title [Movie4] and the unreadable studio [Locked] of
    the example library. *)
Lemma read_failure_emissions_witness :
  processTitleFolder library "lib/StudioA/Movie4"
  = [StructureWarning (CannotReadTitle "lib/StudioA/Movie4" "permission denied")]
  /\ processStudio library "lib/Locked"
     = [StructureWarning (CannotReadStudio "lib/Locked" "permission denied")]
  /\ emptyCheck library "lib/Locked" = []
  /\ checkDirectChildren library "lib/Locked" "studio" = []
  /\ processStudio library "lib/StudioA"
     = checkDirectChildren library "lib/StudioA" "studio"
       ++ processTitles library "lib/StudioA"
            [dir "Movie1"; dir "Movie2"; dir "Movie3"]
       ++ [StructureWarning (CannotReadTitle "lib/StudioA/Movie4" "permission denied")]
       ++ processTitles library "lib/StudioA" [file "stray.nfo"].
Proof.
  pose proof (read_failure_emissions library "lib/StudioA/Movie4"
                "permission denied" eq_refl) as [[Ht _] [_ [_ [Hsib _]]]].
  pose proof (read_failure_emissions library "lib/Locked"
                "permission denied" eq_refl) as [_ [[Hs [He _]] [Hc _]]].
  split; [exact Ht|]. split; [exact Hs|]. split; [exact He|].
  split; [exact (Hc "studio")|].
  exact (Hsib "lib/StudioA" [dir "Movie1"; dir "Movie2"; dir "Movie3"]
             (dir "Movie4") [file "stray.nfo"] eq_refl eq_refl eq_refl).
Defined.

(** ** The off-level file rule *)


Lemma collectStep_entry (dirPath : string) (files videoBasenames : list string)
  (e : DirEntry) :
  collectStep dirPath (files, videoBasenames) e
  = (files ++ filesOf dirPath [e],
     if Spec.isVideoFile e
     then setAdd (ToLower (Spec.basename (Name e))) videoBasenames
     else videoBasenames).
Proof.
  unfold collectStep, filesOf, Spec.isVideoFile, Spec.basename.
  rewrite <- lookup_videoExtensions. cbn [filter].
  destruct (IsDir e); cbn [negb andb map].
  - now rewrite app_nil_r.
  - now destruct (lookup videoExtensions (ToLower (Ext (Name e)))).
Qed.

Lemma filesOf_cons (dirPath : string) (e : DirEntry) (entries : list DirEntry) :
  filesOf dirPath (e :: entries) = filesOf dirPath [e] ++ filesOf dirPath entries.
Proof. unfold filesOf. cbn [filter]. now destruct (negb (IsDir e)). Qed.

Lemma collectStep_files (dirPath : string) (entries : list DirEntry)
  (files videoBasenames : list string) :
  fst (fold_left (collectStep dirPath) entries (files, videoBasenames))
  = files ++ filesOf dirPath entries.
Proof.
  revert files videoBasenames.
  induction entries as [|e entries IH]; intros files vbs; cbn [fold_left].
  - cbn. now rewrite app_nil_r.
  - rewrite collectStep_entry, IH, <- app_assoc. f_equal.
    symmetry. apply filesOf_cons.
Qed.



(** [checkDirectChildren] on a directory that can be read. *)
Lemma checkDirectChildren_read (fs : FileSystem) (dirPath level : string)
  (entries : list DirEntry) :
  ReadDir fs dirPath = Ok entries ->
  checkDirectChildren fs dirPath level
  = flat_map (categorize level (videoBasenamesOf dirPath entries))
             (filesOf dirPath entries).
Proof.
  intros Hread. unfold checkDirectChildren, videoBasenamesOf. rewrite Hread.
  pose proof (collectStep_files dirPath entries [] []) as Hfiles.
  destruct (fold_left (collectStep dirPath) entries ([], [])) as [files vbs].
  simpl in Hfiles. now subst files.
Qed.



(** The second loop on a joined path whose name is valid. *)
Lemma categorize_Join (level dirPath name : string) (videoBasenames : list string) :
  Spec.validName name ->
  categorize level videoBasenames (Join dirPath name)
  = if lookup videoExtensions (ToLower (Ext name))
    then [StructureWarning (VideoAtLevel level (Join dirPath name))]
    else if hasMatchingVideo videoBasenames (TrimSuffix name (ToLower (Ext name)))
         then [StructureWarning (MetadataAtLevel level (Join dirPath name))]
         else [OrphanedFile (Join dirPath name)].
Proof. intros Hname. unfold categorize. now rewrite (Base_Join _ _ Hname). Qed.


Section ExtensionFacts.

Local Open Scope string_scope.

Lemma ToLower_length (s : string) : String.length (ToLower s) = String.length s.
Proof. induction s as [|c s IH]; simpl; [reflexivity | now rewrite IH]. Qed.






End ExtensionFacts.


(** C2, at the input where the code leaves the rule: [clip.JPG] is not
    a video, its basename [clip] does not start with [clip.jpg], the
    basename of the only video [clip.jpg.mkv], so the rule makes it an
    Orphaned File; [checkDirectChildren] strips the lowercased
    extension [.jpg] from [clip.JPG], which removes nothing, matches
    [clip.jpg] against [clip.jpg] and emits a structure warning. *)
Theorem upper_case_extension_keeps_extension :
  Spec.basename "clip.JPG" = "clip"
  /\ Spec.basename "clip.jpg.mkv" = "clip.jpg"
  /\ Spec.classify [file "clip.JPG"; file "clip.jpg.mkv"] (file "clip.JPG")
     = Spec.Orphan
  /\ TrimSuffix "clip.JPG" (ToLower (Ext "clip.JPG")) = "clip.JPG"
  /\ checkDirectChildren clips "lib" "library"
     = [StructureWarning (MetadataAtLevel "library" "lib/clip.JPG");
        StructureWarning (VideoAtLevel "library" "lib/clip.jpg.mkv")].
Proof. repeat split. Qed.

(** C4. With [movie.mkv] and [movie2.nfo] at the same studio or library
    level, ["movie2"] starts with ["movie"], the two match, and
    [movie2.nfo] gets a structure warning and is no Orphaned File. *)
Theorem movie2_matches_movie :
  Spec.basename "movie2.nfo" = "movie2"
  /\ Spec.basename "movie.mkv" = "movie"
  /\ HasPrefix "movie2" "movie" = true
  /\ Spec.matched "movie2.nfo" "movie.mkv" = true
  /\ checkDirectChildren sequel "lib/Studio" "studio"
     = [StructureWarning (VideoAtLevel "studio" "lib/Studio/movie.mkv");
        StructureWarning (MetadataAtLevel "studio" "lib/Studio/movie2.nfo")]
  /\ In (StructureWarning (MetadataAtLevel "library" "lib/movie2.nfo"))
        (checkDirectChildren library "lib" "library")
  /\ ~ In (OrphanedFile "lib/movie2.nfo")
          (checkDirectChildren library "lib" "library").
Proof.
  repeat split.
  - vm_compute. tauto.
  - vm_compute. intros [H | [H | [H | []]]]; discriminate.
Qed.



(** ** The goroutines of the scan *)

Section Machine.

Variable fs : FileSystem.
Variable numWorkers : Z.
Variable studioDirs : list string.

Local Notation "st1 '-->' st2" :=
  (step fs numWorkers studioDirs st1 st2) (at level 70).
Local Notation "st1 '-->*' st2" :=
  (steps fs numWorkers studioDirs st1 st2) (at level 70).

(** A property that the steps keep holds in every state reached. *)
Lemma steps_invariant (P : state -> Prop) :
  (forall st st', P st -> st --> st' -> P st') ->
  forall st st', P st -> st -->* st' -> P st'.
Proof.
  intros Hkeep st st' HP Hsteps.
  induction Hsteps as [|st1 st2 st3 _ IH Hstep]; [exact HP|].
  exact (Hkeep _ _ (IH HP) Hstep).
Qed.

Lemma steps_trans (st1 st2 st3 : state) :
  st1 -->* st2 -> st2 -->* st3 -> st1 -->* st3.
Proof.
  intros H12 H23. induction H23 as [|st2 st3 st4 _ IH Hstep]; [exact H12|].
  exact (steps_step _ _ _ _ _ _ (IH H12) Hstep).
Qed.

Lemma pendingOf_split (ws1 ws2 : list worker) (w : worker) :
  flat_map pendingOf (ws1 ++ w :: ws2)
  = flat_map pendingOf ws1 ++ pendingOf w ++ flat_map pendingOf ws2.
Proof. now rewrite flat_map_app. Qed.

Ltac count_appends :=
  apply (Permutation_count_occ emission_eq_dec); intros x;
  repeat rewrite ?count_occ_app, ?flat_map_app; cbn [flat_map pendingOf];
  repeat rewrite ?count_occ_app, ?app_nil_r; change (count_occ emission_eq_dec [] x) with 0;
  lia.

(** Every step moves appends from what remains to what is emitted. *)
Lemma step_remaining (st st' : state) :
  st --> st' ->
  Permutation (emitted st' ++ remaining fs studioDirs st')
              (emitted st ++ remaining fs studioDirs st).
Proof.
  intros Hstep. unfold remaining, secondPass.
  destruct Hstep; cbn [emitted workers studioChan pc toSend toCheck];
    rewrite ?pendingOf_split;
    try match goal with |- context [Processing (?e :: ?es)] =>
      change (pendingOf (Processing (e :: es))) with ([e] ++ es) end;
    count_appends.
Qed.

(** What is emitted and what remains are together the appends of the
    scan in order, up to their order. *)
Lemma emitted_remaining (es : list emission) (st : state) :
  initial es -->* st ->
  Permutation (emitted st ++ remaining fs studioDirs st)
              (scanInOrder fs es studioDirs).
Proof.
  apply (steps_invariant
           (fun st => Permutation (emitted st ++ remaining fs studioDirs st)
                        (scanInOrder fs es studioDirs))).
  - intros st1 st2 H Hstep. rewrite <- H. now apply step_remaining.
  - unfold remaining, scanInOrder, initial. cbn. reflexivity.
Qed.

Lemma live_app (ws1 ws2 : list worker) : live (ws1 ++ ws2) = live ws1 + live ws2.
Proof.
  induction ws1 as [|w ws1 IH]; [reflexivity|].
  destruct w; simpl; rewrite IH; reflexivity.
Qed.

Lemma live_none (ws : list worker) : live ws = 0 -> Forall (eq Exited) ws.
Proof.
  induction ws as [|w ws IH]; intros H; [constructor|].
  destruct w; simpl in H; try discriminate.
  constructor; [reflexivity | now apply IH].
Qed.

Lemma live_some (ws : list worker) :
  live ws <> 0 -> exists ws1 w ws2, ws = ws1 ++ w :: ws2 /\ w <> Exited.
Proof.
  induction ws as [|w ws IH]; intros H; [now destruct H|].
  destruct w.
  - exists [], Receiving, ws. split; [reflexivity | discriminate].
  - exists [], (Processing pending), ws. split; [reflexivity | discriminate].
  - destruct (IH H) as [ws1 [w [ws2 [-> Hw]]]].
    exists (Exited :: ws1), w, ws2. now split.
Qed.

Lemma exited_pending (ws : list worker) :
  Forall (eq Exited) ws -> flat_map pendingOf ws = [].
Proof.
  induction 1 as [|w ws <- _ IH]; [reflexivity | exact IH].
Qed.

(** The wait group counts the workers that have not returned. *)
Lemma wg_live (es : list emission) (st : state) :
  initial es -->* st -> wg st = live (workers st).
Proof.
  apply (steps_invariant (fun st => wg st = live (workers st))); [|reflexivity].
  intros st1 st2 H Hstep.
  destruct Hstep; cbn [wg workers] in *; rewrite ?live_app in *;
    cbn [live] in *; lia.
Qed.

(** The barrier: once the coordinator is past [wg.Wait()] the counter
    is zero. *)
Lemma wg_pastWait (es : list emission) (st : state) :
  initial es -->* st -> pastWait (pc st) = true -> wg st = 0.
Proof.
  apply (steps_invariant (fun st => pastWait (pc st) = true -> wg st = 0));
    [|discriminate].
  intros st1 st2 H Hstep.
  destruct Hstep; cbn [wg pc pastWait] in *; intros Hpast;
    try discriminate; try reflexivity; try (now apply H).
  specialize (H Hpast). discriminate.
Qed.

Lemma exited_update (ws1 ws2 : list worker) (w w' : worker) :
  w' <> Exited -> In Exited (ws1 ++ w' :: ws2) -> In Exited (ws1 ++ w :: ws2).
Proof.
  intros Hw Hin. apply in_app_iff in Hin as [Hin | [Hin | Hin]];
    apply in_app_iff; [now left | now destruct Hw | right; now right].
Qed.

(** The channel is closed once the coordinator is past [close], and a
    worker returns only from a closed and empty channel. *)
Lemma closed_exited (es : list emission) (st : state) :
  initial es -->* st ->
  closed st = pastClose (pc st)
  /\ (In Exited (workers st) -> studioChan st = [] /\ closed st = true).
Proof.
  apply (steps_invariant
           (fun st => closed st = pastClose (pc st)
                      /\ (In Exited (workers st)
                          -> studioChan st = [] /\ closed st = true))).
  - intros st1 st2 [Hcl Hex] Hstep.
    destruct Hstep; cbn [closed pc pastClose workers studioChan] in *.
    + split; [exact Hcl|]. intros Hin. apply Hex.
      apply in_app_iff in Hin as [Hin | [Hin | []]]; [exact Hin | discriminate].
    + split; [exact Hcl | exact Hex].
    + split; [exact Hcl|]. intros Hin. destruct (Hex Hin) as [_ Hc]. congruence.
    + split; [exact Hcl | exact Hex].
    + split; [reflexivity|]. intros Hin. destruct (Hex Hin) as [_ Hc]. congruence.
    + split; [exact Hcl | exact Hex].
    + split; [exact Hcl | exact Hex].
    + split; [exact Hcl | exact Hex].
    + split; [exact Hcl|]. intros Hin.
      assert (Hold : In Exited (ws1 ++ Receiving :: ws2))
        by (revert Hin; apply exited_update; discriminate).
      destruct (Hex Hold) as [Hc _]. discriminate.
    + split; [exact Hcl|]. intros Hin. apply Hex.
      revert Hin. apply exited_update. discriminate.
    + split; [exact Hcl|]. intros Hin. apply Hex.
      revert Hin. apply exited_update. discriminate.
    + split; [exact Hcl|]. intros _. now split.
  - split; [reflexivity | intros []].
Qed.

(** The pool has [numWorkers] workers once the spawning loop is over,
    none when [numWorkers] is not positive. *)
Lemma pool_size (es : list emission) (st : state) :
  initial es -->* st ->
  match pc st with
  | Spawning i =>
      (0 <= i)%Z /\ (i = 0 \/ i <= numWorkers)%Z
      /\ List.length (workers st) = Z.to_nat i
  | _ => List.length (workers st) = Z.to_nat numWorkers
  end.
Proof.
  apply (steps_invariant
           (fun st =>
              match pc st with
              | Spawning i =>
                  (0 <= i)%Z /\ (i = 0 \/ i <= numWorkers)%Z
                  /\ List.length (workers st) = Z.to_nat i
              | _ => List.length (workers st) = Z.to_nat numWorkers
              end)).
  - intros st1 st2 H Hstep.
    destruct Hstep; cbn [pc workers] in *;
      try exact H;
      try (destruct c; rewrite length_app in *; cbn [List.length] in *;
           exact H).
    + destruct H as [Hpos [Hmax Hlen]]. rewrite length_app, Hlen.
      cbn [List.length]. split; [lia|]. split; lia.
    + destruct H as [Hpos [Hmax Hlen]]. rewrite Hlen. lia.
  - cbn. split; [lia|]. split; [now left | reflexivity].
Qed.

(** The channel has room for every studio that is still to be sent. *)
Lemma channel_room (es : list emission) (st : state) :
  initial es -->* st ->
  List.length (studioChan st) + List.length (toSend studioDirs (pc st))
  <= List.length studioDirs.
Proof.
  apply (steps_invariant
           (fun st => List.length (studioChan st)
                      + List.length (toSend studioDirs (pc st))
                      <= List.length studioDirs)).
  - intros st1 st2 H Hstep.
    destruct Hstep; cbn [pc studioChan toSend List.length] in *;
      rewrite ?length_app in *; cbn [List.length] in *; try lia.
    all: destruct c; cbn [toSend List.length] in *; lia.
  - cbn. lia.
Qed.

(** Every step uses up some of the measure: no run is infinite. *)
Lemma step_measure (st st' : state) :
  st --> st' ->
  measure fs numWorkers studioDirs st' < measure fs numWorkers studioDirs st.
Proof.
  intros Hstep. unfold measure, queueWeight.
  destruct Hstep; cbn [pc workers studioChan coordinatorWeight];
    unfold queueWeight;
    rewrite ?map_app, ?list_sum_app; unfold list_sum;
    cbn [map fold_right workerWeight List.length];
    unfold studioWeight; lia.
Qed.

(** No deadlock: a state reached by the scan is the returned
    coordinator, or some goroutine can take a step. *)
Lemma progress (es : list emission) (st : state) :
  initial es -->* st -> pc st = Returned \/ exists st', st --> st'.
Proof.
  intros Hreach.
  pose proof (wg_live es st Hreach) as Hwg.
  pose proof (closed_exited es st Hreach) as [Hcl _].
  pose proof (channel_room es st Hreach) as Hroom.
  destruct st as [c n ch cl ws em]. cbn [pc wg workers closed studioChan] in *.
  destruct c as [i | rest | | | rest |].
  - right. destruct (Z_lt_dec i numWorkers) as [Hlt | Hge].
    + eexists. now apply step_spawn.
    + eexists. now apply step_spawned.
  - right. destruct rest as [|s rest].
    + eexists. apply step_sent.
    + eexists. apply step_send. cbn [toSend List.length] in Hroom. lia.
  - right. eexists. apply step_close.
  - right. destruct n as [|n].
    + eexists. apply step_wait.
    + destruct (live_some ws) as [ws1 [w [ws2 [-> Hw]]]]; [lia|].
      destruct w as [|pending|]; [| |now destruct Hw].
      * destruct ch as [|s ch].
        -- cbn in Hcl. subst cl. eexists. apply step_exit.
        -- eexists. apply step_receive.
      * destruct pending as [|e pending].
        -- eexists. apply step_processed.
        -- eexists. apply step_append.
  - right. destruct rest as [|s rest].
    + eexists. apply step_return.
    + eexists. apply step_check.
  - now left.
Qed.

(** The scan returns: from every state reached, the coordinator can
    run to its end, in no more steps than the measure. *)
Lemma returns (es : list emission) (st : state) :
  initial es -->* st -> exists st', st -->* st' /\ pc st' = Returned.
Proof.
  remember (measure fs numWorkers studioDirs st) as m eqn:Hm.
  revert st Hm. induction m as [m IH] using lt_wf_ind. intros st Hm Hreach.
  destruct (progress es st Hreach) as [Hret | [st' Hstep]].
  - exists st. split; [apply steps_refl | exact Hret].
  - destruct (IH (measure fs numWorkers studioDirs st')) with (st := st')
      as [st'' [Hsteps Hret]].
    + subst m. now apply step_measure.
    + reflexivity.
    + exact (steps_step _ _ _ _ _ _ Hreach Hstep).
    + exists st''. split; [|exact Hret].
      apply steps_trans with st'; [|exact Hsteps].
      exact (steps_step _ _ _ _ _ _ (steps_refl _ _ _ _) Hstep).
Qed.

(** The barrier, on the workers: past [wg.Wait()] every worker has
    returned, and none will append any more. *)
Lemma barrier (es : list emission) (st : state) :
  initial es -->* st -> pastWait (pc st) = true ->
  Forall (eq Exited) (workers st).
Proof.
  intros Hreach Hpast. apply live_none.
  rewrite <- (wg_live es st Hreach). now apply (wg_pastWait es).
Qed.

(** Whatever is emitted is an append of the scan in order. *)
Lemma emitted_in_order (es : list emission) (st : state) (e : emission) :
  initial es -->* st -> In e (emitted st) -> In e (scanInOrder fs es studioDirs).
Proof.
  intros Hreach Hin.
  apply (Permutation_in _ (emitted_remaining es st Hreach)).
  apply in_app_iff. now left.
Qed.

(** With at least one worker, the scan returns with the appends of the
    scan in order, up to their order. *)
Lemma returned_with_workers (es : list emission) (st : state) :
  (0 < numWorkers)%Z ->
  initial es -->* st -> pc st = Returned ->
  Permutation (emitted st) (scanInOrder fs es studioDirs).
Proof.
  intros Hpos Hreach Hret.
  pose proof (emitted_remaining es st Hreach) as Hperm.
  assert (Hpast : pastWait (pc st) = true) by now rewrite Hret.
  pose proof (barrier es st Hreach Hpast) as Hgone.
  pose proof (pool_size es st Hreach) as Hpool. rewrite Hret in Hpool.
  pose proof (closed_exited es st Hreach) as [_ Hex].
  assert (Hch : studioChan st = []).
  { apply Hex. destruct (workers st) as [|w ws]; [cbn in Hpool; lia|].
    inversion Hgone; subst. now left. }
  unfold remaining in Hperm.
  rewrite (exited_pending _ Hgone), Hch, Hret in Hperm. cbn in Hperm.
  now rewrite app_nil_r in Hperm.
Qed.

(** Without workers, the channel is filled and closed, nothing is
    received from it, and the scan returns with the appends of the
    last loop only. *)
Lemma without_workers (es : list emission) (st : state) :
  (numWorkers <= 0)%Z ->
  initial es -->* st ->
  workers st = []
  /\ studioChan st ++ toSend studioDirs (pc st) = studioDirs
  /\ emitted st ++ secondPass fs (toCheck studioDirs (pc st))
     = es ++ secondPass fs studioDirs.
Proof.
  intros Hnone Hreach.
  cut ((forall i, pc st = Spawning i -> (0 <= i)%Z)
       /\ workers st = []
       /\ studioChan st ++ toSend studioDirs (pc st) = studioDirs
       /\ emitted st ++ secondPass fs (toCheck studioDirs (pc st))
          = es ++ secondPass fs studioDirs); [tauto|].
  revert Hreach.
  apply (steps_invariant
           (fun st => (forall i, pc st = Spawning i -> (0 <= i)%Z)
                      /\ workers st = []
                      /\ studioChan st ++ toSend studioDirs (pc st) = studioDirs
                      /\ emitted st ++ secondPass fs (toCheck studioDirs (pc st))
                         = es ++ secondPass fs studioDirs)).
  - intros st1 st2 [Hi [Hws [Hch Hem]]] Hstep.
    destruct Hstep; cbn [workers studioChan pc emitted toSend toCheck] in *;
      try (now destruct ws1; discriminate Hws).
    + specialize (Hi i eq_refl). lia.
    + split; [discriminate | now repeat split].
    + rewrite <- app_assoc. split; [discriminate | now repeat split].
    + split; [discriminate | now repeat split].
    + split; [discriminate | now repeat split].
    + split; [discriminate | now repeat split].
    + rewrite <- app_assoc. split; [discriminate | now repeat split].
    + split; [discriminate | now repeat split].
  - split; [|now repeat split]. intros i Hi. injection Hi as <-. lia.
Qed.

(** The schedule only takes steps of the transition system. *)
Lemma receiveTurn_step (ws : list worker) :
  forall (ws0 ws' : list worker) (ch ch' : list string) (cl : bool)
         (c : coordinator) (n : nat) (em : list emission),
    receiveTurn fs ws ch = Some (ws', ch') ->
    mkState c n ch cl (ws0 ++ ws) em --> mkState c n ch' cl (ws0 ++ ws') em.
Proof.
  induction ws as [|w ws IH]; intros ws0 ws' ch ch' cl c n em Hturn;
    [discriminate|].
  assert (Hlater :
            match receiveTurn fs ws ch with
            | Some (ws1, ch1) => Some (w :: ws1, ch1)
            | None => None
            end = Some (ws', ch') ->
            mkState c n ch cl (ws0 ++ w :: ws) em
            --> mkState c n ch' cl (ws0 ++ ws') em).
  { destruct (receiveTurn fs ws ch) as [[ws1 ch1]|] eqn:E; [|discriminate].
    intros H. injection H as <- <-.
    specialize (IH (ws0 ++ [w]) ws1 ch ch1 cl c n em E).
    now rewrite <- !app_assoc in IH. }
  cbn [receiveTurn] in Hturn.
  destruct w as [|pending|]; try (now apply Hlater).
  destruct ch as [|s ch]; [now apply Hlater|].
  injection Hturn as <- <-. apply step_receive.
Qed.

Lemma workerMove_step (w w' : worker) (ws1 ws2 : list worker) (ch ch' : list string)
  (cl done : bool) (new : list emission) (c : coordinator) (n : nat)
  (em : list emission) :
  workerMove fs w ch cl = Some (w', ch', new, done) ->
  (done = false ->
     mkState c n ch cl (ws1 ++ w :: ws2) em
     --> mkState c n ch' cl (ws1 ++ w' :: ws2) (em ++ new))
  /\ (done = true ->
     mkState c (S n) ch cl (ws1 ++ w :: ws2) em
     --> mkState c n ch' cl (ws1 ++ w' :: ws2) (em ++ new)).
Proof.
  intros Hmove. destruct w as [|pending|]; cbn [workerMove] in Hmove.
  - destruct ch as [|s ch].
    + destruct cl; [|discriminate].
      injection Hmove as <- <- <- <-. rewrite app_nil_r.
      split; [discriminate | intros _; apply step_exit].
    + injection Hmove as <- <- <- <-. rewrite app_nil_r.
      split; [intros _; apply step_receive | discriminate].
  - destruct pending as [|e pending]; injection Hmove as <- <- <- <-.
    + rewrite app_nil_r. split; [intros _; apply step_processed | discriminate].
    + split; [intros _; apply step_append | discriminate].
  - discriminate.
Qed.

Lemma workerTurn_step (ws : list worker) :
  forall (ws0 ws' : list worker) (ch ch' : list string) (cl done : bool)
         (new : list emission) (c : coordinator) (n : nat) (em : list emission),
    workerTurn fs ws ch cl = Some (ws', ch', new, done) ->
    (done = false ->
       mkState c n ch cl (ws0 ++ ws) em
       --> mkState c n ch' cl (ws0 ++ ws') (em ++ new))
    /\ (done = true ->
       mkState c (S n) ch cl (ws0 ++ ws) em
       --> mkState c n ch' cl (ws0 ++ ws') (em ++ new)).
Proof.
  induction ws as [|w ws IH]; intros ws0 ws' ch ch' cl done new c n em Hturn;
    [discriminate|].
  cbn [workerTurn] in Hturn.
  destruct (workerTurn fs ws ch cl) as [[[[ws1 ch1] new1] done1]|] eqn:E.
  - injection Hturn as <- <- <- <-.
    specialize (IH (ws0 ++ [w]) ws1 ch ch1 cl done1 new1 c n em E).
    now rewrite <- !app_assoc in IH.
  - destruct (workerMove fs w ch cl) as [[[[w1 ch1] new1] done1]|] eqn:Hmove;
      [|discriminate].
    injection Hturn as <- <- <- <-. now apply workerMove_step.
Qed.

Lemma workersMove_step (st st' : state) :
  workersMove fs st = Some st' -> st --> st'.
Proof.
  unfold workersMove. destruct st as [c n ch cl ws em].
  cbn [workers studioChan closed wg pc emitted].
  destruct (receiveTurn fs ws ch) as [[ws' ch']|] eqn:Hreceive.
  - intros H. injection H as <-.
    exact (receiveTurn_step ws [] ws' ch ch' cl c n em Hreceive).
  - destruct (workerTurn fs ws ch cl) as [[[[ws' ch'] new] done]|] eqn:E;
      [|discriminate].
    destruct (workerTurn_step ws [] ws' ch ch' cl done new c (pred n) em E)
      as [_ Hdone].
    destruct (workerTurn_step ws [] ws' ch ch' cl done new c n em E)
      as [Hlive _].
    destruct done.
    + destruct n as [|n]; [discriminate|]. intros H. injection H as <-.
      now apply Hdone.
    + intros H. injection H as <-. now apply Hlive.
Qed.

Lemma next_step (st st' : state) :
  next fs numWorkers studioDirs st = Some st' -> st --> st'.
Proof.
  destruct st as [c n ch cl ws em]. cbn [next].
  destruct c as [i | [|s rest] | | | [|s rest] |].
  - destruct (Z.ltb_spec i numWorkers) as [Hlt | Hge];
      intros H; injection H as <-.
    + now apply step_spawn.
    + apply step_spawned. lia.
  - intros H. injection H as <-. apply step_sent.
  - destruct (Nat.ltb_spec (List.length ch) (List.length studioDirs)).
    + intros H'. injection H' as <-. now apply step_send.
    + apply workersMove_step.
  - intros H. injection H as <-. apply step_close.
  - destruct n as [|n].
    + intros H. injection H as <-. apply step_wait.
    + apply workersMove_step.
  - intros H. injection H as <-. apply step_return.
  - intros H. injection H as <-. apply step_check.
  - discriminate.
Qed.

Lemma iterate_steps (fuel : nat) (st : state) :
  st -->* iterate fs numWorkers studioDirs fuel st.
Proof.
  revert st. induction fuel as [|fuel IH]; intros st; cbn [iterate].
  - apply steps_refl.
  - destruct (next fs numWorkers studioDirs st) as [st'|] eqn:E.
    + apply steps_trans with st'; [|apply IH].
      exact (steps_step _ _ _ _ _ _ (steps_refl _ _ _ _) (next_step _ _ E)).
    + apply steps_refl.
Qed.

End Machine.

(** What [runScan] computes is a run of [scanLibrary]. *)
Lemma runScan_scanLibrary (fs : FileSystem) (libraryPath : string)
  (numWorkers : Z) (fuel : nat) (es : list emission) :
  runScan fs libraryPath numWorkers fuel = Some es ->
  scanLibrary fs libraryPath numWorkers es.
Proof.
  unfold runScan.
  destruct (scanPrologue fs libraryPath) as [|es0|es0 studioDirs] eqn:Hpro.
  - intros H. injection H as <-. now apply scan_rejected.
  - intros H. injection H as <-. now apply scan_unreadable.
  - destruct (pc (iterate fs numWorkers studioDirs fuel (initial es0))) eqn:Hpc;
      try discriminate.
    intros H. injection H as <-.
    apply (scan_returned _ _ _ es0 studioDirs); [exact Hpro | | exact Hpc].
    apply iterate_steps.
Qed.

(** ** The result of a scan *)

Lemma run_app (es1 es2 : list emission) (result : CleanupResult) :
  run (es1 ++ es2) result = run es2 (run es1 result).
Proof. apply fold_left_app. Qed.

(** [run] appends to each sequence the paths emitted for it, in order. *)
Lemma run_sequences (es : list emission) (result : CleanupResult) :
  run es result
  = mkResult (OrphanedFolders result ++ orphanedFoldersOf es)
             (OrphanedFiles result ++ orphanedFilesOf es)
             (EmptyFolders result ++ emptyFoldersOf es)
             (StructureWarnings result ++ warningTextsOf es).
Proof.
  revert result. induction es as [|e es IH]; intros result.
  - cbn. rewrite !app_nil_r. now destruct result.
  - change (run (e :: es) result) with (run es (emit result e)).
    rewrite IH. destruct e; cbn; now rewrite <- ?app_assoc.
Qed.

(** Two lists of emissions that differ in their order only give
    sequences that differ in their order only. *)
Lemma run_Permutation (es1 es2 : list emission) (result : CleanupResult) :
  Permutation es1 es2 ->
  Permutation (OrphanedFolders (run es1 result)) (OrphanedFolders (run es2 result))
  /\ Permutation (OrphanedFiles (run es1 result)) (OrphanedFiles (run es2 result))
  /\ Permutation (EmptyFolders (run es1 result)) (EmptyFolders (run es2 result))
  /\ Permutation (StructureWarnings (run es1 result))
                 (StructureWarnings (run es2 result)).
Proof.
  intros Hperm. rewrite !run_sequences. cbn.
  repeat split; apply Permutation_app_head; now apply Permutation_flat_map.
Qed.

(** [scanLibrary] returns, whatever the number of workers. *)
Lemma scanLibrary_returns (fs : FileSystem) (libraryPath : string) (numWorkers : Z) :
  exists es, scanLibrary fs libraryPath numWorkers es.
Proof.
  destruct (scanPrologue fs libraryPath) as [|es|es studioDirs] eqn:Hpro.
  - exists []. now apply scan_rejected.
  - exists es. now apply scan_unreadable.
  - destruct (returns fs numWorkers studioDirs es (initial es)
                (steps_refl _ _ _ _)) as [st [Hsteps Hret]].
    exists (emitted st). now apply (scan_returned _ _ _ es studioDirs).
Qed.

(** With at least one worker, [scanLibrary] makes the appends of the
    sequential scan, in some order. *)
Lemma scanLibrary_sequential (fs : FileSystem) (libraryPath : string)
  (numWorkers : Z) (es : list emission) :
  (0 < numWorkers)%Z ->
  scanLibrary fs libraryPath numWorkers es ->
  Permutation es (scanSequential fs libraryPath).
Proof.
  intros Hpos Hscan. unfold scanSequential.
  destruct Hscan as [Hpro | es Hpro | es0 studioDirs st Hpro Hsteps Hret];
    rewrite Hpro; try reflexivity.
  now apply returned_with_workers with numWorkers.
Qed.

(** C3. For a fixed directory tree, scans with 1, 4, 10, 20 or 50
    workers all return, and any two of them leave the same Orphaned
    Folders, Orphaned Files, Empty Folders and Structure Warnings up to
    order: the same entries, each the same number of times, and so the
    same counts. *)
Theorem worker_count_independent (fs : FileSystem) (libraryPath : string)
  (n1 n2 : Z) (result0 result1 result2 : CleanupResult) :
  In n1 testedWorkerCounts -> In n2 testedWorkerCounts ->
  scanResult fs libraryPath n1 result0 result1 ->
  scanResult fs libraryPath n2 result0 result2 ->
  (exists result, scanResult fs libraryPath n1 result0 result)
  /\ Permutation (OrphanedFolders result1) (OrphanedFolders result2)
  /\ Permutation (OrphanedFiles result1) (OrphanedFiles result2)
  /\ Permutation (EmptyFolders result1) (EmptyFolders result2)
  /\ Permutation (StructureWarnings result1) (StructureWarnings result2)
  /\ List.length (OrphanedFolders result1) = List.length (OrphanedFolders result2)
  /\ List.length (OrphanedFiles result1) = List.length (OrphanedFiles result2)
  /\ List.length (EmptyFolders result1) = List.length (EmptyFolders result2)
  /\ List.length (StructureWarnings result1)
     = List.length (StructureWarnings result2).
Proof.
  intros Hn1 Hn2 [es1 [Hscan1 ->]] [es2 [Hscan2 ->]].
  assert (Hpos1 : (0 < n1)%Z).
  { unfold testedWorkerCounts in Hn1. simpl in Hn1. lia. }
  assert (Hpos2 : (0 < n2)%Z).
  { unfold testedWorkerCounts in Hn2. simpl in Hn2. lia. }
  split.
  { destruct (scanLibrary_returns fs libraryPath n1) as [es Hes].
    exists (run es result0), es. now split. }
  assert (Hperm : Permutation es1 es2).
  { rewrite (scanLibrary_sequential _ _ _ _ Hpos1 Hscan1).
    symmetry. now apply scanLibrary_sequential with n2. }
  destruct (run_Permutation es1 es2 result0 Hperm) as [H1 [H2 [H3 H4]]].
  repeat split; try assumption; now apply Permutation_length.
Qed.

(** The example library scanned with one worker and with four: the
    schedule makes the two scans append in different orders. *)
Lemma worker_count_independent_witness :
  (exists result, scanResult library "lib" 1 emptyResult result)
  /\ Permutation (OrphanedFolders (run (scanWith 1) emptyResult))
                 (OrphanedFolders (run (scanWith 4) emptyResult))
  /\ Permutation (OrphanedFiles (run (scanWith 1) emptyResult))
                 (OrphanedFiles (run (scanWith 4) emptyResult))
  /\ Permutation (EmptyFolders (run (scanWith 1) emptyResult))
                 (EmptyFolders (run (scanWith 4) emptyResult))
  /\ Permutation (StructureWarnings (run (scanWith 1) emptyResult))
                 (StructureWarnings (run (scanWith 4) emptyResult))
  /\ List.length (OrphanedFolders (run (scanWith 1) emptyResult))
     = List.length (OrphanedFolders (run (scanWith 4) emptyResult))
  /\ List.length (OrphanedFiles (run (scanWith 1) emptyResult))
     = List.length (OrphanedFiles (run (scanWith 4) emptyResult))
  /\ List.length (EmptyFolders (run (scanWith 1) emptyResult))
     = List.length (EmptyFolders (run (scanWith 4) emptyResult))
  /\ List.length (StructureWarnings (run (scanWith 1) emptyResult))
     = List.length (StructureWarnings (run (scanWith 4) emptyResult)).
Proof.
  apply (worker_count_independent library "lib" 1 4 emptyResult).
  - simpl. tauto.
  - simpl. tauto.
  - exists (scanWith 1). split; [|reflexivity].
    apply runScan_scanLibrary with 200%nat. reflexivity.
  - exists (scanWith 4). split; [|reflexivity].
    apply runScan_scanLibrary with 200%nat. reflexivity.
Defined.

(** ** Zero workers *)

(** C8. A scan with zero workers returns. In every state it reaches,
    the coordinator has returned or some step can be taken, each step
    uses up some of a finite measure, and the run can be completed;
    there is no worker, so [processStudio] is never called; and when
    the coordinator has returned, all studios are in the channel, the
    channel is closed, and the only appends after the off-level check
    of the library are those of the last loop. *)
Theorem zero_workers_return (fs : FileSystem) (libraryPath : string) :
  (exists es, scanLibrary fs libraryPath 0 es)
  /\ (forall es0 studioDirs st,
        scanPrologue fs libraryPath = Ready es0 studioDirs ->
        steps fs 0 studioDirs (initial es0) st ->
        (pc st = Returned \/ exists st', step fs 0 studioDirs st st')
        /\ (forall st', step fs 0 studioDirs st st' ->
              measure fs 0 studioDirs st' < measure fs 0 studioDirs st)
        /\ (exists st', steps fs 0 studioDirs st st' /\ pc st' = Returned)
        /\ workers st = []
        /\ (pc st = Returned ->
              studioChan st = studioDirs
              /\ closed st = true
              /\ emitted st = es0 ++ secondPass fs studioDirs)).
Proof.
  split; [apply scanLibrary_returns|].
  intros es0 studioDirs st _ Hreach.
  split; [now apply progress with es0|].
  split; [intros st'; apply step_measure|].
  split; [now apply returns with es0|].
  destruct (without_workers fs 0 studioDirs es0 st (Z.le_refl 0) Hreach)
    as [Hws [Hch Hem]].
  split; [exact Hws|]. intros Hret.
  destruct (closed_exited fs 0 studioDirs es0 st Hreach) as [Hcl _].
  rewrite Hret in *. cbn in Hch, Hem, Hcl.
  rewrite app_nil_r in Hch, Hem. now repeat split.
Qed.

(** The example library scanned with zero workers. *)
Lemma zero_workers_return_witness :
  workers (finalState library "lib" 0 200) = []
  /\ studioChan (finalState library "lib" 0 200)
     = ["lib/Locked"; "lib/StudioA"; "lib/StudioB"]
  /\ closed (finalState library "lib" 0 200) = true
  /\ emitted (finalState library "lib" 0 200)
     = checkDirectChildren library "lib" "library" ++ [EmptyFolder "lib/StudioB"].
Proof.
  destruct (zero_workers_return library "lib") as [_ H].
  destruct (H (checkDirectChildren library "lib" "library")
              ["lib/Locked"; "lib/StudioA"; "lib/StudioB"]
              (finalState library "lib" 0 200) eq_refl
              (iterate_steps library 0 _ 200 _))
    as [_ [_ [_ [Hws Hret]]]].
  destruct (Hret eq_refl) as [Hch [Hcl Hem]].
  split; [exact Hws|]. split; [exact Hch|]. split; [exact Hcl | exact Hem].
Defined.

(** ** Which directory a path is an entry of *)

Section DepthFacts.

Local Open Scope string_scope.

Lemma countSeparators_append (s t : string) :
  countSeparators (s ++ t) = countSeparators s + countSeparators t.
Proof. induction s as [|c s IH]; simpl; [reflexivity | rewrite IH; lia]. Qed.

Lemma countSeparators_none (name : string) :
  hasSeparator name = false <-> countSeparators name = 0.
Proof.
  induction name as [|c name IH]; simpl; [tauto|].
  destruct (isPathSeparator c); simpl.
  - split; [discriminate | lia].
  - exact IH.
Qed.

Lemma countSeparators_Join (dirPath name : string) :
  hasSeparator name = false ->
  countSeparators (Join dirPath name) = S (countSeparators dirPath).
Proof.
  intros Hname. apply countSeparators_none in Hname. unfold Join.
  rewrite !countSeparators_append, Hname. simpl. lia.
Qed.

(** A path inside [dirPath] with one separator more is an entry of
    [dirPath]. *)
Lemma inside_Join (dirPath path : string) :
  inside dirPath path = true ->
  exists back, path = Join dirPath back
               /\ countSeparators path
                  = S (countSeparators dirPath) + countSeparators back.
Proof.
  unfold inside. intros H. apply HasPrefix_starts in H as [back ->].
  exists back. unfold Join. rewrite append_assoc. split; [reflexivity|].
  rewrite !countSeparators_append. simpl. lia.
Qed.

End DepthFacts.

Section Origins.

Variable fs : FileSystem.
Variable libraryPath : string.
Hypothesis Hwf : wellFormed fs.

Lemma entry_validName (dirPath : string) (entries : list DirEntry) (e : DirEntry) :
  ReadDir fs dirPath = Ok entries -> In e entries -> Spec.validName (Name e).
Proof.
  intros Hread Hin. destruct (Hwf _ _ Hread) as [_ Hvalid].
  rewrite Forall_forall in Hvalid. now apply Hvalid.
Qed.

Lemma entry_unique (dirPath : string) (entries : list DirEntry) (e1 e2 : DirEntry) :
  ReadDir fs dirPath = Ok entries ->
  In e1 entries -> In e2 entries -> Name e1 = Name e2 -> e1 = e2.
Proof.
  intros Hread. destruct (Hwf _ _ Hread) as [Hnodup _]. clear Hread.
  induction entries as [|e entries IH]; intros H1 H2 Hname; [destruct H1|].
  cbn [map] in Hnodup. inversion Hnodup as [|? ? Hnotin Hrest]; subst.
  destruct H1 as [-> | H1], H2 as [-> | H2].
  - reflexivity.
  - destruct Hnotin. rewrite Hname. now apply in_map.
  - destruct Hnotin. rewrite <- Hname. now apply in_map.
  - now apply IH.
Qed.

(** The depth of a directory that the scan reads is the number of
    separators that its path has more than the library path. *)
Lemma scanned_depth (depth : nat) (dirPath : string) :
  scanned fs libraryPath depth dirPath ->
  countSeparators dirPath = countSeparators libraryPath + depth.
Proof.
  induction 1 as [|depth dirPath entries e _ IH Hread Hin Hdir].
  - lia.
  - rewrite countSeparators_Join, IH; [lia|].
    apply (entry_validName _ _ _ Hread Hin).
Qed.

(** What the scan appends about a path depends on the path only. *)
Lemma about_functional (path : string) (v1 v2 : list emission) :
  about fs libraryPath path v1 -> about fs libraryPath path v2 -> v1 = v2.
Proof.
  intros H1 H2.
  destruct H1 as [depth1 dirPath1 entries1 e1 Hle1 Hscan1 Hread1 Hin1].
  remember (Join dirPath1 (Name e1)) as path eqn:Hpath.
  destruct H2 as [depth2 dirPath2 entries2 e2 Hle2 Hscan2 Hread2 Hin2].
  apply Join_inj in Hpath as [Hdir Hname];
    [| apply (entry_validName _ _ _ Hread2 Hin2)
     | apply (entry_validName _ _ _ Hread1 Hin1)].
  subst dirPath2. rewrite Hread1 in Hread2. injection Hread2 as <-.
  assert (He : e2 = e1) by now apply (entry_unique _ _ _ _ Hread1).
  subst e2.
  apply scanned_depth in Hscan1, Hscan2.
  assert (Hdepth : depth1 = depth2) by lia. now subst depth2.
Qed.

Lemma categorize_cases (level filePath : string) (videoBasenames : list string)
  (e : emission) :
  In e (categorize level videoBasenames filePath) ->
  categorize level videoBasenames filePath = [e] /\ pathOf e = filePath.
Proof.
  unfold categorize.
  destruct (lookup videoExtensions (ToLower (Ext (Base filePath)))).
  - intros [<- | []]. now split.
  - destruct (hasMatchingVideo videoBasenames
                (TrimSuffix (Base filePath) (ToLower (Ext (Base filePath)))));
      intros [<- | []]; now split.
Qed.

(** At most one append is about a path, and it names that path. *)
Lemma verdict_single (depth : nat) (dirPath : string) (entries : list DirEntry)
  (e0 : DirEntry) (e : emission) :
  In e (verdict fs depth dirPath entries e0) ->
  verdict fs depth dirPath entries e0 = [e]
  /\ pathOf e = Join dirPath (Name e0).
Proof.
  unfold verdict, studioVerdict, titleVerdict, subdirVerdict.
  destruct depth as [|[|depth]]; destruct (IsDir e0);
    try apply categorize_cases;
    repeat match goal with
      | |- context [match ?x with _ => _ end] => destruct x
      end;
    try (intros [<- | []]; now split); intros [].
Qed.

End Origins.

(** ** Where the appends of a scan come from *)

Lemma prologue_ready (fs : FileSystem) (libraryPath : string)
  (es : list emission) (studioDirs : list string) :
  scanPrologue fs libraryPath = Ready es studioDirs ->
  es = checkDirectChildren fs libraryPath "library"
  /\ exists entries,
       ReadDir fs libraryPath = Ok entries
       /\ studioDirs
          = flat_map (fun entry =>
                        if IsDir entry then [Join libraryPath (Name entry)] else [])
                     entries.
Proof.
  unfold scanPrologue. destruct (Stat fs libraryPath) as [isDir|]; [|discriminate].
  destruct (negb isDir); [discriminate|].
  destruct (ReadDir fs libraryPath) as [entries|] eqn:Hread; [|discriminate].
  intros H. injection H as <- <-. split; [reflexivity|]. now exists entries.
Qed.

Lemma prologue_unreadable (fs : FileSystem) (libraryPath : string)
  (es : list emission) :
  scanPrologue fs libraryPath = Unreadable es -> es = [].
Proof.
  unfold scanPrologue, checkDirectChildren.
  destruct (Stat fs libraryPath) as [isDir|]; [|discriminate].
  destruct (negb isDir); [discriminate|].
  destruct (ReadDir fs libraryPath) as [entries|] eqn:Hread; [discriminate|].
  intros H. now injection H as <-.
Qed.

Lemma studioDirs_In (libraryPath : string) (entries : list DirEntry) (s : string) :
  In s (flat_map (fun entry =>
                    if IsDir entry then [Join libraryPath (Name entry)] else [])
                 entries)
  <-> exists x, In x entries /\ IsDir x = true /\ s = Join libraryPath (Name x).
Proof.
  rewrite in_flat_map. split.
  - intros [x [Hin Hs]]. exists x. destruct (IsDir x); [|destruct Hs].
    destruct Hs as [<- | []]. now repeat split.
  - intros [x [Hin [Hdir ->]]]. exists x. split; [exact Hin|].
    rewrite Hdir. now left.
Qed.

Lemma checkDirectChildren_origin (fs : FileSystem) (dirPath level : string)
  (e : emission) :
  In e (checkDirectChildren fs dirPath level) ->
  exists entries f,
    ReadDir fs dirPath = Ok entries /\ In f entries /\ IsDir f = false
    /\ In e (categorize level (videoBasenamesOf dirPath entries)
               (Join dirPath (Name f))).
Proof.
  destruct (ReadDir fs dirPath) as [entries|err] eqn:Hread.
  - rewrite (checkDirectChildren_read _ _ _ _ Hread).
    intros Hin. apply in_flat_map in Hin as [p [Hp He]].
    unfold filesOf in Hp. apply in_map_iff in Hp as [f [<- Hf]].
    apply filter_In in Hf as [Hf Hfile]. apply negb_true_iff in Hfile.
    now exists entries, f.
  - unfold checkDirectChildren. rewrite Hread. intros [].
Qed.

Lemma processTitleFolder_origin (fs : FileSystem) (titlePath : string)
  (e : emission) :
  In e (processTitleFolder fs titlePath) ->
  In e (titleVerdict fs titlePath)
  \/ exists entries x,
       ReadDir fs titlePath = Ok entries /\ In x entries
       /\ In e (subdirVerdict titlePath x).
Proof.
  unfold titleVerdict.
  destruct (ReadDir fs titlePath) as [entries|err] eqn:Hread.
  - rewrite (processTitleFolder_read _ _ _ Hread).
    destruct entries as [|e0 entries]; [now left|].
    intros Hin. apply in_app_iff in Hin as [Hin | Hin].
    + right. apply in_map_iff in Hin as [x [<- Hx]].
      apply filter_In in Hx as [Hx Hunexpected].
      exists (e0 :: entries), x. split; [reflexivity|]. split; [exact Hx|].
      unfold subdirVerdict. rewrite Hunexpected. now left.
    + now left.
  - unfold processTitleFolder. rewrite Hread. now left.
Qed.

(** Every append of a scan is what the scan says about the path it
    names. *)
Lemma scan_origin (fs : FileSystem) (libraryPath : string)
  (es : list emission) (studioDirs : list string) (e : emission) :
  scanPrologue fs libraryPath = Ready es studioDirs ->
  In e (scanInOrder fs es studioDirs) ->
  exists v, about fs libraryPath (pathOf e) v /\ In e v.
Proof.
  intros Hpro Hin.
  apply prologue_ready in Hpro as [-> [entries [Hread ->]]].
  assert (Hentry :
            forall depth dirPath listing e0,
              depth <= 2 -> scanned fs libraryPath depth dirPath ->
              ReadDir fs dirPath = Ok listing -> In e0 listing ->
              In e (verdict fs depth dirPath listing e0) ->
              exists v, about fs libraryPath (pathOf e) v /\ In e v).
  { intros depth dirPath listing e0 Hle Hscan Hlist He0 He.
    exists (verdict fs depth dirPath listing e0). split; [|exact He].
    destruct (verdict_single _ _ _ _ _ _ He) as [_ ->].
    now apply about_entry. }
  unfold scanInOrder in Hin. apply in_app_iff in Hin as [Hin | Hin];
    [|apply in_app_iff in Hin as [Hin | Hin]].
  - apply checkDirectChildren_origin in Hin as [listing [f [Hlist [Hf [Hfile He]]]]].
    rewrite Hread in Hlist. injection Hlist as <-.
    apply (Hentry 0 libraryPath entries f);
      [lia | constructor | exact Hread | exact Hf|].
    unfold verdict. now rewrite Hfile.
  - apply in_flat_map in Hin as [s [Hs Hin]].
    apply studioDirs_In in Hs as [x [Hx [Hdir ->]]].
    assert (Hstudio : scanned fs libraryPath 1 (Join libraryPath (Name x))).
    { now apply (scanned_child _ _ 0 libraryPath entries x);
        [constructor | | |]. }
    unfold processStudio in Hin. apply in_app_iff in Hin as [Hin | Hin].
    + apply checkDirectChildren_origin in Hin
        as [listing [f [Hlist [Hf [Hfile He]]]]].
      apply (Hentry 1 (Join libraryPath (Name x)) listing f);
        [lia | exact Hstudio | exact Hlist | exact Hf|].
      unfold verdict. now rewrite Hfile.
    + destruct (ReadDir fs (Join libraryPath (Name x))) as [titles|err] eqn:Hlist.
      * unfold processTitles in Hin. apply in_flat_map in Hin as [t [Ht Hin]].
        destruct (IsDir t) eqn:Htdir; [|destruct Hin]. cbn [negb] in Hin.
        apply processTitleFolder_origin in Hin
          as [Hin | [listing [sub [Hsub [Hsubin Hin]]]]].
        -- apply (Hentry 1 (Join libraryPath (Name x)) titles t);
             [lia | exact Hstudio | exact Hlist | exact Ht|].
           unfold verdict. now rewrite Htdir.
        -- apply (Hentry 2 (Join (Join libraryPath (Name x)) (Name t)) listing sub);
             [lia | | exact Hsub | exact Hsubin | exact Hin].
           now apply (scanned_child _ _ 1 _ titles t).
      * apply (Hentry 0 libraryPath entries x);
          [lia | constructor | exact Hread | exact Hx|].
        unfold verdict, studioVerdict. now rewrite Hdir, Hlist.
  - unfold secondPass in Hin. apply in_flat_map in Hin as [s [Hs Hin]].
    apply studioDirs_In in Hs as [x [Hx [Hdir ->]]].
    apply (Hentry 0 libraryPath entries x);
      [lia | constructor | exact Hread | exact Hx|].
    unfold verdict, studioVerdict. rewrite Hdir.
    unfold emptyCheck, isDirEmpty in Hin.
    destruct (ReadDir fs (Join libraryPath (Name x))) as [[|t titles]|err];
      cbn in Hin; [exact Hin | destruct Hin | destruct Hin].
Qed.

(** ** One entry per path *)

Section OneEntry.

Variable fs : FileSystem.
Variable libraryPath : string.
Hypothesis Hwf : wellFormed fs.

Lemma about_single (path : string) (v : list emission) (e : emission) :
  about fs libraryPath path v -> In e v -> v = [e] /\ pathOf e = path.
Proof.
  intros Habout Hin. destruct Habout. now apply verdict_single.
Qed.

(** What the scan says about a path fixes its depth. *)
Lemma about_depth (path : string) (v : list emission) (e : emission) :
  about fs libraryPath path v -> In e v ->
  countSeparators path <= countSeparators libraryPath + 3
  /\ (forall titlePath, e = OrphanedFolder titlePath ->
        countSeparators path = countSeparators libraryPath + 2)
  /\ (countSeparators path = countSeparators libraryPath + 3 ->
        e = StructureWarning (UnexpectedSubdir path)).
Proof.
  intros Habout Hin.
  destruct Habout as [depth dirPath entries e0 Hle Hscan Hread He0].
  pose proof (scanned_depth fs libraryPath Hwf depth dirPath Hscan) as Hdepth.
  rewrite countSeparators_Join by apply (entry_validName fs Hwf _ _ _ Hread He0).
  split; [lia|]. split.
  - intros titlePath ->.
    assert (Hone : depth = 1); [|lia].
    unfold verdict, studioVerdict, titleVerdict, subdirVerdict, categorize in Hin.
    destruct depth as [|[|depth]]; [exfalso | reflexivity | exfalso];
      repeat match type of Hin with
        | context [match ?x with _ => _ end] => destruct x
        end;
      cbn in Hin; intuition discriminate.
  - intros Hthree. assert (depth = 2) by lia. subst depth.
    unfold verdict, subdirVerdict in Hin.
    destruct (Spec.isUnexpectedSubdir e0), (IsDir e0);
      try (now destruct Hin); destruct Hin as [<- | []]; reflexivity.
Qed.

(** Any two appends of a scan about the same path are the same append,
    and what lies inside an Orphaned Folder is named only by the
    warnings about its unexpected subdirectories. *)
Lemma scanInOrder_one_entry (es : list emission) (studioDirs : list string) :
  scanPrologue fs libraryPath = Ready es studioDirs ->
  (forall e1 e2,
     In e1 (scanInOrder fs es studioDirs) -> In e2 (scanInOrder fs es studioDirs) ->
     pathOf e1 = pathOf e2 -> e1 = e2)
  /\ (forall titlePath e,
        In (OrphanedFolder titlePath) (scanInOrder fs es studioDirs) ->
        In e (scanInOrder fs es studioDirs) ->
        inside titlePath (pathOf e) = true ->
        exists name, e = StructureWarning (UnexpectedSubdir (Join titlePath name))).
Proof.
  intros Hpro. split.
  - intros e1 e2 H1 H2 Hpath.
    destruct (scan_origin _ _ _ _ _ Hpro H1) as [v1 [Ha1 Hv1]].
    destruct (scan_origin _ _ _ _ _ Hpro H2) as [v2 [Ha2 Hv2]].
    rewrite Hpath in Ha1.
    pose proof (about_functional fs libraryPath Hwf _ _ _ Ha1 Ha2) as Hv.
    destruct (about_single _ _ _ Ha1 Hv1) as [E1 _].
    destruct (about_single _ _ _ Ha2 Hv2) as [E2 _].
    congruence.
  - intros titlePath e Horphan He Hinside.
    destruct (scan_origin _ _ _ _ _ Hpro Horphan) as [v1 [Ha1 Hv1]].
    destruct (scan_origin _ _ _ _ _ Hpro He) as [v2 [Ha2 Hv2]].
    destruct (about_depth _ _ _ Ha1 Hv1) as [_ [Htitle _]].
    specialize (Htitle titlePath eq_refl). cbn [pathOf] in Htitle.
    destruct (about_depth _ _ _ Ha2 Hv2) as [Hmax [_ Hsub]].
    apply inside_Join in Hinside as [back [Hback Hcount]].
    exists back. rewrite <- Hback. apply Hsub. lia.
Qed.

End OneEntry.

Lemma orphanedFoldersOf_In (es : list emission) (p : string) :
  In p (orphanedFoldersOf es) <-> In (OrphanedFolder p) es.
Proof.
  unfold orphanedFoldersOf. rewrite in_flat_map. split.
  - intros [e [He Hp]]. destruct e; try (now destruct Hp).
    destruct Hp as [<- | []]. exact He.
  - intros He. exists (OrphanedFolder p). split; [exact He | now left].
Qed.

Lemma orphanedFilesOf_In (es : list emission) (p : string) :
  In p (orphanedFilesOf es) <-> In (OrphanedFile p) es.
Proof.
  unfold orphanedFilesOf. rewrite in_flat_map. split.
  - intros [e [He Hp]]. destruct e; try (now destruct Hp).
    destruct Hp as [<- | []]. exact He.
  - intros He. exists (OrphanedFile p). split; [exact He | now left].
Qed.

Lemma emptyFoldersOf_In (es : list emission) (p : string) :
  In p (emptyFoldersOf es) <-> In (EmptyFolder p) es.
Proof.
  unfold emptyFoldersOf. rewrite in_flat_map. split.
  - intros [e [He Hp]]. destruct e; try (now destruct Hp).
    destruct Hp as [<- | []]. exact He.
  - intros He. exists (EmptyFolder p). split; [exact He | now left].
Qed.

(** The appends of any run of [scanLibrary] are appends of the
    sequential scan. *)
Lemma scanLibrary_in_sequential (fs : FileSystem) (libraryPath : string)
  (numWorkers : Z) (es : list emission) (e : emission) :
  scanLibrary fs libraryPath numWorkers es -> In e es ->
  exists es0 studioDirs,
    scanPrologue fs libraryPath = Ready es0 studioDirs
    /\ In e (scanInOrder fs es0 studioDirs).
Proof.
  intros Hscan Hin.
  destruct Hscan as [Hpro | es Hpro | es0 studioDirs st Hpro Hsteps Hret].
  - destruct Hin.
  - apply prologue_unreadable in Hpro. subst es. destruct Hin.
  - exists es0, studioDirs. split; [exact Hpro|].
    now apply emitted_in_order with numWorkers st.
Qed.

(** The snapshots built by [snapshot] are well formed when their
    listings pass the check. *)
Lemma distinct_NoDup (names : list string) : distinct names = true -> NoDup names.
Proof.
  induction names as [|n names IH]; intros H; [constructor|].
  cbn [distinct] in H. apply andb_true_iff in H as [Hn Hrest].
  constructor; [|now apply IH].
  intros Hin. apply negb_true_iff in Hn.
  assert (Hex : existsb (String.eqb n) names = true).
  { apply existsb_exists. exists n. split; [exact Hin | apply String.eqb_refl]. }
  congruence.
Qed.

Lemma validNameb_validName (name : string) :
  validNameb name = true -> Spec.validName name.
Proof.
  unfold validNameb, Spec.validName. intros H.
  apply andb_true_iff in H as [Hne Hsep].
  apply negb_true_iff in Hne, Hsep. apply String.eqb_neq in Hne. now split.
Qed.

Lemma snapshot_wellFormed (dirs : list (string * outcome (list DirEntry))) :
  forallb (fun d => listingOk (snd d)) dirs = true -> wellFormed (snapshot dirs).
Proof.
  intros Hok dirPath entries. cbn [snapshot ReadDir].
  destruct (find dirs dirPath) as [r|] eqn:Hfind; [|discriminate].
  intros ->.
  assert (Hr : listingOk (Ok entries) = true).
  { induction dirs as [|[p r] dirs IH]; [discriminate|].
    cbn [forallb snd] in Hok. apply andb_true_iff in Hok as [Hhere Hrest].
    cbn [find] in Hfind. destruct (String.eqb p dirPath).
    - injection Hfind as ->. exact Hhere.
    - now apply IH. }
  cbn [listingOk] in Hr. apply andb_true_iff in Hr as [Hdistinct Hvalid].
  split; [now apply distinct_NoDup|].
  apply Forall_forall. intros e He. apply validNameb_validName.
  rewrite forallb_forall in Hvalid. now apply Hvalid.
Qed.

Lemma library_wellFormed : wellFormed library.
Proof. apply snapshot_wellFormed. reflexivity. Qed.

(** C6, as the code has it. In a scan of a well-formed tree, any two
    entries about the same path are the same entry, so no path is in
    two of the four sequences: the Orphaned Folders, Orphaned Files and
    Empty Folders of the scan have no path in common, and a path named
    by a structure warning is in none of the three. Nothing inside an
    Orphaned Folder is in those three sequences; the entries about
    paths inside it are the structure warnings about its unexpected
    subdirectories. *)
Theorem one_entry_per_path (fs : FileSystem) (libraryPath : string)
  (numWorkers : Z) (es : list emission) :
  wellFormed fs ->
  scanLibrary fs libraryPath numWorkers es ->
  (forall e1 e2, In e1 es -> In e2 es -> pathOf e1 = pathOf e2 -> e1 = e2)
  /\ (forall p,
        ~ (In p (OrphanedFolders (run es emptyResult))
           /\ In p (OrphanedFiles (run es emptyResult)))
        /\ ~ (In p (OrphanedFolders (run es emptyResult))
              /\ In p (EmptyFolders (run es emptyResult)))
        /\ ~ (In p (OrphanedFiles (run es emptyResult))
              /\ In p (EmptyFolders (run es emptyResult)))
        /\ (forall w, In (StructureWarning w) es -> warningPath w = p ->
              ~ In p (OrphanedFolders (run es emptyResult))
              /\ ~ In p (OrphanedFiles (run es emptyResult))
              /\ ~ In p (EmptyFolders (run es emptyResult))))
  /\ (forall titlePath e,
        In (OrphanedFolder titlePath) es -> In e es ->
        inside titlePath (pathOf e) = true ->
        exists name, e = StructureWarning (UnexpectedSubdir (Join titlePath name))).
Proof.
  intros Hwf Hscan.
  assert (Hone : forall e1 e2,
             In e1 es -> In e2 es -> pathOf e1 = pathOf e2 -> e1 = e2).
  { intros e1 e2 H1 H2 Hpath.
    destruct (scanLibrary_in_sequential _ _ _ _ _ Hscan H1)
      as [es0 [studioDirs [Hpro H1']]].
    destruct (scanLibrary_in_sequential _ _ _ _ _ Hscan H2)
      as [es0' [studioDirs' [Hpro' H2']]].
    rewrite Hpro in Hpro'. injection Hpro' as <- <-.
    destruct (scanInOrder_one_entry fs libraryPath Hwf es0 studioDirs Hpro)
      as [Huniq _].
    now apply Huniq. }
  split; [exact Hone|]. split.
  - intros p. rewrite run_sequences. cbn.
    rewrite orphanedFoldersOf_In, orphanedFilesOf_In, emptyFoldersOf_In.
    split; [|split; [|split]].
    + intros [H1 H2]. now specialize (Hone _ _ H1 H2 eq_refl).
    + intros [H1 H2]. now specialize (Hone _ _ H1 H2 eq_refl).
    + intros [H1 H2]. now specialize (Hone _ _ H1 H2 eq_refl).
    + intros w Hw Hpath.
      rewrite orphanedFoldersOf_In, orphanedFilesOf_In, emptyFoldersOf_In.
      split; [|split]; intros H2; now specialize (Hone _ _ Hw H2 Hpath).
  - intros titlePath e Horphan He Hinside.
    destruct (scanLibrary_in_sequential _ _ _ _ _ Hscan Horphan)
      as [es0 [studioDirs [Hpro Horphan']]].
    destruct (scanLibrary_in_sequential _ _ _ _ _ Hscan He)
      as [es0' [studioDirs' [Hpro' He']]].
    rewrite Hpro in Hpro'. injection Hpro' as <- <-.
    destruct (scanInOrder_one_entry fs libraryPath Hwf es0 studioDirs Hpro)
      as [_ Hsub].
    exact (Hsub titlePath e Horphan' He' Hinside).
Qed.

(** The scan of the example library with four workers. *)
Lemma one_entry_per_path_witness :
  (forall e1 e2,
     In e1 (scanWith 4) -> In e2 (scanWith 4) -> pathOf e1 = pathOf e2 -> e1 = e2)
  /\ (forall titlePath e,
        In (OrphanedFolder titlePath) (scanWith 4) -> In e (scanWith 4) ->
        inside titlePath (pathOf e) = true ->
        exists name, e = StructureWarning (UnexpectedSubdir (Join titlePath name))).
Proof.
  destruct (one_entry_per_path library "lib" 4 (scanWith 4) library_wellFormed)
    as [Hone [_ Hsub]].
  - apply runScan_scanLibrary with 200%nat. reflexivity.
  - split; [exact Hone | exact Hsub].
Defined.

(** C6, as stated, fails on the example library: [Movie2] is an
    Orphaned Folder, and its subdirectory [extras] has a structure
    warning of its own. *)
Lemma orphaned_folder_contents_itemized :
  scanLibrary library "lib" 4 (scanWith 4)
  /\ In (OrphanedFolder "lib/StudioA/Movie2") (scanWith 4)
  /\ In (StructureWarning (UnexpectedSubdir "lib/StudioA/Movie2/extras")) (scanWith 4)
  /\ In "lib/StudioA/Movie2" (OrphanedFolders (run (scanWith 4) emptyResult))
  /\ In "Unexpected subdirectory in title folder: lib/StudioA/Movie2/extras"
        (StructureWarnings (run (scanWith 4) emptyResult))
  /\ ~ subsumesContents (scanWith 4).
Proof.
  split; [apply runScan_scanLibrary with 200%nat; reflexivity|].
  assert (H1 : In (OrphanedFolder "lib/StudioA/Movie2") (scanWith 4))
    by (vm_compute; tauto).
  assert (H2 : In (StructureWarning (UnexpectedSubdir "lib/StudioA/Movie2/extras"))
                  (scanWith 4))
    by (vm_compute; tauto).
  split; [exact H1|]. split; [exact H2|].
  split; [vm_compute; tauto|]. split; [vm_compute; tauto|].
  intros Hsub. specialize (Hsub _ _ H1 H2). discriminate Hsub.
Qed.

(** ** The second pass *)






(** ** The scenarios of the specification *)

(** The order in which Go ranges over [videoBasenames] does not matter. *)
Lemma hasMatchingVideo_Permutation (keys1 keys2 : list string) (basename : string) :
  Permutation keys1 keys2 ->
  hasMatchingVideo keys1 basename = hasMatchingVideo keys2 basename.
Proof.
  intros Hperm. unfold hasMatchingVideo.
  induction Hperm as [|k l1 l2 _ IH|k1 k2 l|l1 l2 l3 _ IH1 _ IH2]; cbn [existsb].
  - reflexivity.
  - now rewrite IH.
  - now rewrite !orb_assoc,
      (orb_comm (HasPrefix (ToLower basename) k2) (HasPrefix (ToLower basename) k1)).
  - now rewrite IH1.
Qed.

(** One orphaned title and one empty studio. *)
Example scenario_orphan_and_empty :
  runScan scenarioOrphan "lib" 4 100
  = Some [OrphanedFolder "lib/StudioA/Movie2"; EmptyFolder "lib/StudioB"].
Proof. reflexivity. Qed.

(** A stray file at the library root and an empty studio. *)
Example scenario_stray_file :
  runScan scenarioStray "lib" 4 100
  = Some [OrphanedFile "lib/readme.txt"; EmptyFolder "lib/Studio1"].
Proof. reflexivity. Qed.

(** [movie.nfo], [movie-poster.jpg] and [Movie.NFO] match [movie.mkv];
    [deleted.nfo] matches no video. *)
Example scenario_basename_match :
  checkDirectChildren scenarioMatch "lib" "library"
  = [StructureWarning (MetadataAtLevel "library" "lib/Movie.NFO");
     OrphanedFile "lib/deleted.nfo";
     StructureWarning (MetadataAtLevel "library" "lib/movie-poster.jpg");
     StructureWarning (VideoAtLevel "library" "lib/movie.mkv");
     StructureWarning (MetadataAtLevel "library" "lib/movie.nfo")].
Proof. reflexivity. Qed.

(** * Further properties of the code *)

(** ** The off-level check, file by file *)

Lemma categorize_single (level filePath : string) (videoBasenames : list string) :
  exists e, categorize level videoBasenames filePath = [e] /\ pathOf e = filePath.
Proof.
  unfold categorize.
  destruct (lookup videoExtensions (ToLower (Ext (Base filePath))));
    [|destruct (hasMatchingVideo videoBasenames
                  (TrimSuffix (Base filePath) (ToLower (Ext (Base filePath)))))];
    eexists; split; reflexivity.
Qed.

Lemma categorize_paths (level : string) (videoBasenames files : list string) :
  map pathOf (flat_map (categorize level videoBasenames) files) = files.
Proof.
  induction files as [|p files IH]; [reflexivity|].
  cbn [flat_map]. rewrite map_app, IH.
  destruct (categorize_single level p videoBasenames) as [e [-> Hp]].
  cbn. now rewrite Hp.
Qed.






(** ** Letter case *)

Section LetterCase.

Local Open Scope string_scope.

Lemma lowerByte_idempotent (c : ascii) : lowerByte (lowerByte c) = lowerByte c.
Proof. destruct c as [[] [] [] [] [] [] [] []]; reflexivity. Qed.

Lemma lowerByte_separator (c : ascii) :
  isPathSeparator (lowerByte c) = isPathSeparator c.
Proof. destruct c as [[] [] [] [] [] [] [] []]; reflexivity. Qed.

Lemma lowerByte_dot (c : ascii) : Ascii.eqb (lowerByte c) "." = Ascii.eqb c ".".
Proof. destruct c as [[] [] [] [] [] [] [] []]; reflexivity. Qed.

Lemma ToLower_idempotent (s : string) : ToLower (ToLower s) = ToLower s.
Proof.
  induction s as [|c s IH]; simpl; [reflexivity|].
  now rewrite lowerByte_idempotent, IH.
Qed.

Lemma get_ToLower (s : string) (i : nat) :
  String.get i (ToLower s) = option_map lowerByte (String.get i s).
Proof.
  revert i. induction s as [|c s IH]; intros [|i]; simpl; try reflexivity.
  apply IH.
Qed.

Lemma substring_ToLower (s : string) (i m : nat) :
  substring i m (ToLower s) = ToLower (substring i m s).
Proof.
  revert i m. induction s as [|c s IH]; intros [|i] [|m]; simpl; try reflexivity.
  - now rewrite IH.
  - apply IH.
  - apply IH.
Qed.

Lemma ExtFrom_ToLower (s : string) (n : nat) :
  ExtFrom (ToLower s) n = ToLower (ExtFrom s n).
Proof.
  induction n as [|i IH]; simpl; [reflexivity|].
  rewrite get_ToLower. destruct (String.get i s) as [c|]; simpl; [|reflexivity].
  rewrite lowerByte_separator, lowerByte_dot.
  destruct (isPathSeparator c); [reflexivity|].
  destruct (Ascii.eqb c "."); [|exact IH].
  now rewrite ToLower_length, substring_ToLower.
Qed.

(** The extension of the lowercased name is the lowercased extension. *)
Lemma Ext_ToLower (s : string) : Ext (ToLower s) = ToLower (Ext s).
Proof. unfold Ext. rewrite ToLower_length. apply ExtFrom_ToLower. Qed.

End LetterCase.

Lemma sameUpToCase_recognized (a b : DirEntry) :
  sameUpToCase a b ->
  Spec.isVideoFile a = Spec.isVideoFile b
  /\ Spec.isUnexpectedSubdir a = Spec.isUnexpectedSubdir b.
Proof.
  intros [Hdir Hname]. unfold Spec.isVideoFile, Spec.isUnexpectedSubdir.
  now rewrite Hdir, Hname, <- !Ext_ToLower, Hname.
Qed.

Lemma sameUpToCase_listing (entries1 entries2 : list DirEntry) :
  Forall2 sameUpToCase entries1 entries2 ->
  existsb Spec.isVideoFile entries1 = existsb Spec.isVideoFile entries2
  /\ List.length (filter Spec.isUnexpectedSubdir entries1)
     = List.length (filter Spec.isUnexpectedSubdir entries2).
Proof.
  induction 1 as [|a b l1 l2 Hab _ [IHv IHu]]; [now split|].
  destruct (sameUpToCase_recognized a b Hab) as [Hv Hu].
  cbn [existsb filter]. rewrite Hv, Hu, IHv. split; [reflexivity|].
  destruct (Spec.isUnexpectedSubdir b); cbn [List.length]; now rewrite IHu.
Qed.

Lemma sequenceOf_warnings (A : Type) (f : A -> warning) (l : list A) :
  map sequenceOf (map (fun x => StructureWarning (f x)) l)
  = repeat InStructureWarnings (List.length l).
Proof. induction l as [|x l IH]; simpl; [reflexivity | now rewrite IH]. Qed.

(** X3. The classification of a title folder does not depend on the
    letter case of the names of its entries: two title folders whose
    listings agree entry by entry, up to letter case, get entries in
    the same sequences, in the same order. *)
Theorem title_folder_ignores_letter_case (fs1 fs2 : FileSystem)
  (titlePath1 titlePath2 : string) (entries1 entries2 : list DirEntry) :
  ReadDir fs1 titlePath1 = Ok entries1 ->
  ReadDir fs2 titlePath2 = Ok entries2 ->
  Forall2 sameUpToCase entries1 entries2 ->
  map sequenceOf (processTitleFolder fs1 titlePath1)
  = map sequenceOf (processTitleFolder fs2 titlePath2).
Proof.
  intros Hread1 Hread2 Hsame.
  rewrite (processTitleFolder_read _ _ _ Hread1), (processTitleFolder_read _ _ _ Hread2).
  destruct (sameUpToCase_listing _ _ Hsame) as [Hvideo Hsub].
  destruct Hsame as [|a b l1 l2 Hab Hrest]; [reflexivity|].
  rewrite !map_app, !sequenceOf_warnings, Hvideo, Hsub.
  now destruct (existsb Spec.isVideoFile (b :: l2)).
Qed.

(** [Movie1] of the example library and the same folder with the
    letter case of its entries changed. *)
Lemma title_folder_ignores_letter_case_witness :
  map sequenceOf (processTitleFolder library "lib/StudioA/Movie1")
  = map sequenceOf (processTitleFolder recased "lib/StudioA/Movie1").
Proof.
  apply (title_folder_ignores_letter_case library recased
           "lib/StudioA/Movie1" "lib/StudioA/Movie1"
           [ dir "MOVIE.TRICKPLAY"; dir "extras"; file "movie.MKV"; file "movie.nfo" ]
           [ dir "movie.TrickPlay"; dir "EXTRAS"; file "MOVIE.mkv"; file "Movie.NFO" ]).
  - reflexivity.
  - reflexivity.
  - repeat constructor.
Defined.

(** ** What a scan lists, and what it does not *)

Lemma categorize_orphan (level filePath q : string) (videoBasenames : list string) :
  In (OrphanedFile q) (categorize level videoBasenames filePath) ->
  q = filePath /\ lookup videoExtensions (ToLower (Ext (Base filePath))) = false.
Proof.
  unfold categorize.
  destruct (lookup videoExtensions (ToLower (Ext (Base filePath)))).
  - intros [H | []]; discriminate.
  - destruct (hasMatchingVideo videoBasenames
                (TrimSuffix (Base filePath) (ToLower (Ext (Base filePath)))));
      intros [H | []]; [discriminate|]. injection H as ->. now split.
Qed.

Lemma categorize_no_folder (level filePath : string) (videoBasenames : list string)
  (e : emission) :
  In e (categorize level videoBasenames filePath) ->
  sequenceOf e = InOrphanedFiles \/ sequenceOf e = InStructureWarnings.
Proof.
  intros Hin. destruct (categorize_single level filePath videoBasenames)
    as [e' [He' _]].
  unfold categorize in *.
  repeat match type of He' with
    | context [match ?b with _ => _ end] => destruct b
    end; injection He' as <-; destruct Hin as [<- | []]; cbn; tauto.
Qed.

(** What an entry of one of the three path sequences says about the
    tree. *)
Lemma origin_listed (fs : FileSystem) (libraryPath path : string)
  (v : list emission) (e : emission) :
  about fs libraryPath path v -> In e v ->
  match e with
  | OrphanedFolder q =>
      (exists studioPath listing t,
         scanned fs libraryPath 1 studioPath
         /\ ReadDir fs studioPath = Ok listing
         /\ In t listing /\ IsDir t = true
         /\ q = Join studioPath (Name t))
      /\ exists entries,
           ReadDir fs q = Ok entries /\ entries <> []
           /\ existsb Spec.isVideoFile entries = false
  | EmptyFolder q => ReadDir fs q = Ok []
  | OrphanedFile q =>
      exists depth dirPath entries f,
        depth <= 1 /\ scanned fs libraryPath depth dirPath
        /\ ReadDir fs dirPath = Ok entries
        /\ In f entries /\ IsDir f = false
        /\ q = Join dirPath (Name f)
        /\ lookup videoExtensions (ToLower (Ext (Base q))) = false
  | StructureWarning _ => True
  end.
Proof.
  intros Habout Hin.
  destruct Habout as [depth dirPath entries e0 Hle Hscan Hread He0].
  unfold verdict in Hin.
  destruct depth as [|[|depth]]; destruct (IsDir e0) eqn:Hdir.
  - unfold studioVerdict in Hin.
    destruct (ReadDir fs (Join dirPath (Name e0))) as [[|t titles]|err] eqn:Hsub;
      cbn in Hin; try (now destruct Hin).
    + destruct Hin as [<- | []]. exact Hsub.
    + destruct Hin as [<- | []]. exact I.
  - destruct e; try exact I.
    + apply categorize_no_folder in Hin. cbn in Hin. destruct Hin; discriminate.
    + apply categorize_orphan in Hin as [-> Hext].
      exists 0, dirPath, entries, e0. repeat split; try assumption. lia.
    + apply categorize_no_folder in Hin. cbn in Hin. destruct Hin; discriminate.
  - unfold titleVerdict in Hin.
    destruct (ReadDir fs (Join dirPath (Name e0))) as [[|t titles]|err] eqn:Hsub;
      cbn [In] in Hin.
    + destruct Hin as [<- | []]. exact Hsub.
    + destruct (existsb Spec.isVideoFile (t :: titles)) eqn:Hvideo;
        [destruct Hin|]. destruct Hin as [<- | []]. split.
      * exists dirPath, entries, e0. now repeat split.
      * exists (t :: titles). repeat split; [exact Hsub | discriminate | exact Hvideo].
    + destruct Hin as [<- | []]. exact I.
  - destruct e; try exact I.
    + apply categorize_no_folder in Hin. cbn in Hin. destruct Hin; discriminate.
    + apply categorize_orphan in Hin as [-> Hext].
      exists 1, dirPath, entries, e0. repeat split; try assumption. lia.
    + apply categorize_no_folder in Hin. cbn in Hin. destruct Hin; discriminate.
  - unfold subdirVerdict in Hin.
    destruct (Spec.isUnexpectedSubdir e0); [|destruct Hin].
    destruct Hin as [<- | []]. exact I.
  - unfold subdirVerdict in Hin.
    destruct (Spec.isUnexpectedSubdir e0); [|destruct Hin].
    destruct Hin as [<- | []]. exact I.
Qed.

Lemma scanLibrary_origin (fs : FileSystem) (libraryPath : string)
  (numWorkers : Z) (es : list emission) (e : emission) :
  scanLibrary fs libraryPath numWorkers es -> In e es ->
  exists v, about fs libraryPath (pathOf e) v /\ In e v.
Proof.
  intros Hscan Hin.
  destruct (scanLibrary_in_sequential _ _ _ _ _ Hscan Hin)
    as [es0 [studioDirs [Hpro Hseq]]].
  now apply scan_origin with es0 studioDirs.
Qed.






(** ** One worker, and none *)









(** X8. A library path that [os.Stat] rejects, that is no directory, or
    that cannot be read leaves the result as it was, whatever the
    number of workers: the scan of a bad root adds no entry, not even a
    structure warning. *)
Theorem unusable_root_adds_nothing (fs : FileSystem) (libraryPath : string)
  (numWorkers : Z) (result0 result1 : CleanupResult) :
  (exists err, Stat fs libraryPath = Failed err)
  \/ Stat fs libraryPath = Ok false
  \/ (exists err, ReadDir fs libraryPath = Failed err) ->
  scanResult fs libraryPath numWorkers result0 result1 ->
  result1 = result0.
Proof.
  intros Hbad [es [Hscan ->]].
  assert (Hpro : scanPrologue fs libraryPath = Rejected
                 \/ exists es0, scanPrologue fs libraryPath = Unreadable es0).
  { unfold scanPrologue.
    destruct Hbad as [[err Hstat] | [Hstat | [err Hread]]].
    - rewrite Hstat. now left.
    - rewrite Hstat. now left.
    - destruct (Stat fs libraryPath) as [[|]|]; cbn [negb];
        [right | now left | now left].
      rewrite Hread. eexists. reflexivity. }
  assert (Hes : es = []).
  { destruct Hscan as [_ | es Hun | es0 studioDirs st Hready _ _].
    - reflexivity.
    - now apply prologue_unreadable in Hun.
    - destruct Hpro as [Hpro | [es1 Hpro]]; congruence. }
  now subst es.
Qed.

(** The unreadable studio [lib/Locked] of the example library, scanned
    as a library. *)
Lemma unusable_root_adds_nothing_witness :
  run (match runScan library "lib/Locked" 4 200 with
       | Some es => es
       | None => []
       end) (run (scanWith 4) emptyResult)
  = run (scanWith 4) emptyResult.
Proof.
  apply (unusable_root_adds_nothing library "lib/Locked" 4).
  - right. right. exists "permission denied". reflexivity.
  - eexists. split; [|reflexivity].
    apply runScan_scanLibrary with 200%nat. reflexivity.
Defined.

(** ** A batch of libraries *)

Lemma scanLibrary_unusable (fs : FileSystem) (libraryPath : string)
  (numWorkers : Z) (es : list emission) :
  unusable fs libraryPath ->
  scanLibrary fs libraryPath numWorkers es <-> es = [].
Proof.
  intros Hbad.
  assert (Hpro : scanPrologue fs libraryPath = Rejected
                 \/ scanPrologue fs libraryPath = Unreadable []).
  { destruct (scanPrologue fs libraryPath) as [|es0|es0 studioDirs] eqn:Hpro.
    - now left.
    - right. now rewrite (prologue_unreadable _ _ _ Hpro).
    - exfalso. unfold scanPrologue in Hpro.
      destruct Hbad as [[err Hstat] | [Hstat | [err Hread]]].
      + now rewrite Hstat in Hpro.
      + now rewrite Hstat in Hpro.
      + destruct (Stat fs libraryPath) as [[|]|]; cbn [negb] in Hpro;
          try discriminate.
        now rewrite Hread in Hpro. }
  split.
  - intros Hscan. destruct Hscan as [_ | es Hun | es0 studioDirs st Hready _ _].
    + reflexivity.
    + now apply prologue_unreadable in Hun.
    + destruct Hpro as [Hpro | Hpro]; congruence.
  - intros ->. destruct Hpro as [Hpro | Hpro];
      [now apply scan_rejected | now apply scan_unreadable].
Qed.

Lemma runBatch_scanLibraries (fs : FileSystem) (numWorkers : Z) (fuel : nat)
  (libraryPaths : list string) :
  Forall (fun libraryPath => runScan fs libraryPath numWorkers fuel <> None)
         libraryPaths ->
  scanLibraries fs numWorkers libraryPaths
    (runBatch fs numWorkers fuel libraryPaths).
Proof.
  induction 1 as [|libraryPath rest Hsome _ IH]; cbn [runBatch].
  - constructor.
  - destruct (runScan fs libraryPath numWorkers fuel) as [es|] eqn:Hrun;
      [|now destruct Hsome].
    constructor; [|exact IH]. now apply runScan_scanLibrary with fuel.
Qed.

(** X9. The scans of a batch do not mix: with at least one worker, the
    appends of the batch are the appends of its libraries one library
    after the other, in the order of the arguments, each library's
    appends being those of its sequential scan in some order. *)
Theorem batch_scans_library_by_library (fs : FileSystem) (numWorkers : Z)
  (libraryPaths : list string) (es : list emission) :
  (0 < numWorkers)%Z ->
  scanLibraries fs numWorkers libraryPaths es ->
  (exists blocks,
     es = concat blocks
     /\ Forall2 (fun libraryPath block =>
                   Permutation block (scanSequential fs libraryPath))
                libraryPaths blocks)
  /\ Permutation es (flat_map (scanSequential fs) libraryPaths).
Proof.
  intros Hpos Hbatch.
  induction Hbatch as [|libraryPath rest es1 es2 Hscan _ [[blocks [-> Hblocks]] Hperm]].
  - split; [|reflexivity]. exists []. split; [reflexivity | constructor].
  - pose proof (scanLibrary_sequential _ _ _ _ Hpos Hscan) as Hone. split.
    + exists (es1 :: blocks). split; [reflexivity | now constructor].
    + cbn [flat_map]. now apply Permutation_app.
Qed.

(** The example library scanned after its unreadable studio, with four
    workers. *)
Lemma batch_scans_library_by_library_witness :
  Permutation (runBatch library 4 200 ["lib/Locked"; "lib"])
              (flat_map (scanSequential library) ["lib/Locked"; "lib"]).
Proof.
  apply (batch_scans_library_by_library library 4 ["lib/Locked"; "lib"]).
  - reflexivity.
  - apply runBatch_scanLibraries.
    constructor; [vm_compute; discriminate|].
    constructor; [vm_compute; discriminate | constructor].
Defined.

(** X10. A bad library path does not stop the batch and leaves no
    trace in it: a batch with a library path that cannot be used makes
    exactly the appends of the batch without that path. *)
Theorem bad_root_does_not_stop_batch (fs : FileSystem) (numWorkers : Z)
  (before after : list string) (bad : string) (es : list emission) :
  unusable fs bad ->
  scanLibraries fs numWorkers (before ++ bad :: after) es
  <-> scanLibraries fs numWorkers (before ++ after) es.
Proof.
  intros Hbad. revert es. induction before as [|libraryPath before IH]; intros es.
  - cbn [app]. split.
    + intros Hbatch. inversion Hbatch as [|? ? es1 es2 Hscan Hrest]; subst.
      apply (scanLibrary_unusable _ _ _ _ Hbad) in Hscan. now subst es1.
    + intros Hbatch. change es with ([] ++ es).
      constructor; [|exact Hbatch]. now apply scanLibrary_unusable.
  - cbn [app]. split; intros Hbatch;
      inversion Hbatch as [|? ? es1 es2 Hscan Hrest]; subst;
      constructor; try assumption; now apply IH.
Qed.

(** The example library with and without a missing library before it. *)
Lemma bad_root_does_not_stop_batch_witness :
  scanLibraries library 4 (["missing"] ++ ["lib"]) (runBatch library 4 200 ["lib"]).
Proof.
  apply (bad_root_does_not_stop_batch library 4 [] ["lib"] "missing").
  - left. exists "no such file or directory". reflexivity.
  - apply runBatch_scanLibraries.
    constructor; [vm_compute; discriminate | constructor].
Defined.

(** ** The deletion pass *)

Section Deletion.

Variable W : Type.
Variable os : OS W.

Lemma tally_world (d : deletion W) (path : string) (r : W * option string) :
  world (tally d path r) = fst r.
Proof. destruct r as [w [err|]]; reflexivity. Qed.

Lemma tally_printed (d : deletion W) (path : string) (r : W * option string) :
  map linePath (printed (tally d path r)) = map linePath (printed d) ++ [path].
Proof. destruct r as [w [err|]]; cbn; now rewrite map_app. Qed.

Lemma tally_counted (d : deletion W) (path : string) (r : W * option string) :
  deleted (tally d path r) + failed (tally d path r) = S (deleted d + failed d).
Proof. destruct r as [w [err|]]; cbn; lia. Qed.

Lemma tally_failed (d : deletion W) (path : string) (r : W * option string) :
  failed (tally d path r) = 0 -> failed d = 0 /\ snd r = None.
Proof. destruct r as [w [err|]]; cbn; [discriminate | now split]. Qed.

(** What the loop over the orphaned folders prints and counts. *)
Lemma removeFolder_fold (folders : list string) (d : deletion W) :
  let d' := fold_left (removeFolder os) folders d in
  map linePath (printed d') = map linePath (printed d) ++ folders
  /\ deleted d' + failed d' = deleted d + failed d + List.length folders.
Proof.
  revert d. induction folders as [|p folders IH]; intros d; cbn [fold_left].
  - cbn. rewrite app_nil_r. split; [reflexivity | lia].
  - destruct (IH (removeFolder os d p)) as [Hprinted Hcount].
    unfold removeFolder in *. rewrite tally_printed in Hprinted.
    rewrite tally_counted in Hcount. cbn zeta. split.
    + rewrite Hprinted, <- app_assoc. reflexivity.
    + cbn [List.length]. lia.
Qed.

(** What a loop with the [os.Stat] check prints and counts. *)
Lemma removeIfPresent_fold (paths : list string) (d : deletion W) :
  let d' := fold_left (removeIfPresent os) paths d in
  exists attempted,
    map linePath (printed d') = map linePath (printed d) ++ attempted
    /\ incl attempted paths
    /\ List.length attempted <= List.length paths
    /\ deleted d' + failed d' = deleted d + failed d + List.length attempted.
Proof.
  revert d. induction paths as [|p paths IH]; intros d; cbn [fold_left].
  - exists []. cbn. rewrite app_nil_r. repeat split; [apply incl_refl | lia | lia].
  - destruct (IH (removeIfPresent os d p)) as [att [Hprinted [Hincl [Hlen Hcount]]]].
    unfold removeIfPresent in *. cbn zeta.
    destruct (StatNotExist os p (world d)).
    + exists att. repeat split; try assumption.
      * now apply incl_tl.
      * cbn [List.length]. lia.
    + rewrite tally_printed in Hprinted. rewrite tally_counted in Hcount.
      exists (p :: att). repeat split.
      * rewrite Hprinted, <- app_assoc. reflexivity.
      * intros x [<- | Hx]; [now left | right; now apply Hincl].
      * cbn [List.length]. lia.
      * cbn [List.length]. lia.
Qed.

(** X11. The deletion pass makes one removal attempt for each Orphaned
    Folder, first and in the order of the list, and after them at most
    one for each Orphaned File and each Empty Folder; every line it
    prints is about a path of these three sequences (never about a
    path that is only in a structure warning), each line is counted
    once as deleted or as failed, and the two counters together never
    exceed the total that the dry run announces. *)
Theorem deletion_pass_attempts (result : CleanupResult) (w : W) :
  let d := executeDeletions os result w in
  (exists attempted,
     map linePath (printed d) = OrphanedFolders result ++ attempted
     /\ incl attempted (OrphanedFiles result ++ EmptyFolders result))
  /\ deleted d + failed d = List.length (printed d)
  /\ deleted d + failed d <= dryRunTotal result.
Proof.
  unfold executeDeletions, dryRunTotal.
  destruct (removeFolder_fold (OrphanedFolders result) (mkDeletion w 0 0 []))
    as [Hp1 Hc1].
  set (d1 := fold_left (removeFolder os) (OrphanedFolders result)
               (mkDeletion w 0 0 [])) in *.
  destruct (removeIfPresent_fold (OrphanedFiles result) d1)
    as [att2 [Hp2 [Hi2 [Hl2 Hc2]]]].
  set (d2 := fold_left (removeIfPresent os) (OrphanedFiles result) d1) in *.
  destruct (removeIfPresent_fold (rev (EmptyFolders result)) d2)
    as [att3 [Hp3 [Hi3 [Hl3 Hc3]]]].
  set (d3 := fold_left (removeIfPresent os) (rev (EmptyFolders result)) d2) in *.
  cbn zeta in *. cbn in Hp1, Hc1. rewrite length_rev in Hl3.
  split; [|split].
  - exists (att2 ++ att3). split.
    + now rewrite Hp3, Hp2, Hp1, <- !app_assoc.
    + intros x Hx. apply in_app_iff in Hx as [Hx | Hx]; apply in_app_iff.
      * left. now apply Hi2.
      * right. apply in_rev. now apply Hi3.
  - rewrite <- (length_map linePath), Hp3, Hp2, Hp1, !length_app. lia.
  - lia.
Qed.

Variable has : W -> string -> bool.
Hypothesis Hlaw : lawful os has.

Lemma removeFolder_untouched (folders : list string) (d : deletion W) (q : string) :
  (forall p, In p folders -> q <> p /\ inside p q = false) ->
  has (world (fold_left (removeFolder os) folders d)) q = has (world d) q.
Proof.
  revert d. induction folders as [|p folders IH]; intros d Hout; [reflexivity|].
  cbn [fold_left]. rewrite IH by (intros p' Hp'; apply Hout; now right).
  unfold removeFolder. rewrite tally_world.
  destruct (Hout p (or_introl eq_refl)) as [Hne Hinside].
  now apply (RemoveAll_frame os has Hlaw).
Qed.

Lemma removeIfPresent_untouched (paths : list string) (d : deletion W) (q : string) :
  ~ In q paths ->
  has (world (fold_left (removeIfPresent os) paths d)) q = has (world d) q.
Proof.
  revert d. induction paths as [|p paths IH]; intros d Hout; [reflexivity|].
  cbn [fold_left]. rewrite IH by (intros Hq; apply Hout; now right).
  unfold removeIfPresent. destruct (StatNotExist os p (world d)); [reflexivity|].
  rewrite tally_world. apply (Remove_frame os has Hlaw).
  intros ->. apply Hout. now left.
Qed.

(** The deletion pass leaves alone every path that is not listed and
    not inside a listed Orphaned Folder. *)
Lemma executeDeletions_untouched (result : CleanupResult) (w : W) (q : string) :
  (forall p, In p (OrphanedFolders result) -> q <> p /\ inside p q = false) ->
  ~ In q (OrphanedFiles result) ->
  ~ In q (EmptyFolders result) ->
  has (world (executeDeletions os result w)) q = has w q.
Proof.
  intros Hfolders Hfiles Hempty. unfold executeDeletions. cbn zeta.
  rewrite removeIfPresent_untouched by (now rewrite <- in_rev).
  rewrite removeIfPresent_untouched by assumption.
  now rewrite removeFolder_untouched.
Qed.

Lemma removeFolder_gone (folders : list string) (d : deletion W) :
  let d' := fold_left (removeFolder os) folders d in
  failed d' = 0 ->
  failed d = 0
  /\ (forall p, In p folders -> has (world d') p = false)
  /\ (forall q, has (world d) q = false -> has (world d') q = false).
Proof.
  revert d. induction folders as [|p folders IH]; intros d; cbn [fold_left].
  - cbn. intros H. split; [exact H|]. split; [intros p [] | tauto].
  - cbn zeta. intros Hfailed.
    destruct (IH (removeFolder os d p) Hfailed) as [Hf [Hgone Hkeep]].
    remember (removeFolder os d p) as d1 eqn:Hd1.
    unfold removeFolder in Hd1. subst d1. apply tally_failed in Hf as [Hf Hok].
    rewrite tally_world in Hkeep.
    assert (Hshrink : forall q, has (world d) q = false ->
              has (fst (RemoveAll os p (world d))) q = false).
    { intros q Hq.
      destruct (has (fst (RemoveAll os p (world d))) q) eqn:E; [|reflexivity].
      apply (RemoveAll_shrinks os has Hlaw) in E. congruence. }
    split; [exact Hf|]. split.
    + intros q [<- | Hq]; [|now apply Hgone].
      apply Hkeep. now apply (RemoveAll_done os has Hlaw).
    + intros q Hq. apply Hkeep. now apply Hshrink.
Qed.

Lemma removeIfPresent_gone (paths : list string) (d : deletion W) :
  let d' := fold_left (removeIfPresent os) paths d in
  failed d' = 0 ->
  failed d = 0
  /\ (forall p, In p paths -> has (world d') p = false)
  /\ (forall q, has (world d) q = false -> has (world d') q = false).
Proof.
  revert d. induction paths as [|p paths IH]; intros d; cbn [fold_left].
  - cbn. intros H. split; [exact H|]. split; [intros p [] | tauto].
  - cbn zeta. intros Hfailed.
    destruct (IH (removeIfPresent os d p) Hfailed) as [Hf [Hgone Hkeep]].
    remember (removeIfPresent os d p) as d1 eqn:Hd1.
    unfold removeIfPresent in Hd1.
    destruct (StatNotExist os p (world d)) eqn:Hstat; subst d1.
    + split; [exact Hf|]. split; [|exact Hkeep].
      intros q [<- | Hq]; [|now apply Hgone].
      apply Hkeep. now apply (StatNotExist_absent os has Hlaw).
    + apply tally_failed in Hf as [Hf Hok]. rewrite tally_world in Hkeep.
      assert (Hshrink : forall q, has (world d) q = false ->
                has (fst (Remove os p (world d))) q = false).
      { intros q Hq.
        destruct (has (fst (Remove os p (world d))) q) eqn:E; [|reflexivity].
        apply (Remove_shrinks os has Hlaw) in E. congruence. }
      split; [exact Hf|]. split.
      * intros q [<- | Hq]; [|now apply Hgone].
        apply Hkeep. now apply (Remove_done os has Hlaw).
      * intros q Hq. apply Hkeep. now apply Hshrink.
Qed.

(** X12. When the deletion pass counts no failure, nothing that it was
    given is left: every Orphaned Folder, Orphaned File and Empty
    Folder of the result is absent afterwards. *)
Theorem no_failure_nothing_left (result : CleanupResult) (w : W) :
  failed (executeDeletions os result w) = 0 ->
  forall p,
    In p (OrphanedFolders result ++ OrphanedFiles result ++ EmptyFolders result) ->
    has (world (executeDeletions os result w)) p = false.
Proof.
  unfold executeDeletions. cbn zeta. intros Hfailed p Hp.
  destruct (removeIfPresent_gone _ _ Hfailed) as [Hf2 [Hgone3 Hkeep3]].
  destruct (removeIfPresent_gone _ _ Hf2) as [Hf1 [Hgone2 Hkeep2]].
  destruct (removeFolder_gone _ _ Hf1) as [_ [Hgone1 _]].
  apply in_app_iff in Hp as [Hp | Hp]; [|apply in_app_iff in Hp as [Hp | Hp]].
  - apply Hkeep3, Hkeep2. now apply Hgone1.
  - apply Hkeep3. now apply Hgone2.
  - apply Hgone3. now apply in_rev in Hp.
Qed.

End Deletion.

(** The file system that is the list of its paths follows the laws. *)
Lemma pathsHas_filter (keep : string -> bool) (w : list string) (q : string) :
  pathsHas (filter keep w) q = pathsHas w q && keep q.
Proof.
  unfold pathsHas. induction w as [|a w IH]; [reflexivity|].
  cbn [filter existsb]. destruct (String.eqb_spec q a) as [<- | Hne].
  - destruct (keep q) eqn:Hq; cbn [existsb orb andb].
    + now rewrite String.eqb_refl.
    + rewrite IH. apply andb_false_r.
  - apply String.eqb_neq in Hne.
    destruct (keep a); cbn [existsb orb]; rewrite ?Hne, IH; reflexivity.
Qed.

Lemma pathsOS_lawful : lawful pathsOS pathsHas.
Proof.
  constructor; cbn [pathsOS RemoveAll Remove StatNotExist fst snd].
  - intros p q w Hne Hinside. rewrite pathsHas_filter, Hinside.
    apply String.eqb_neq in Hne. rewrite Hne. apply andb_true_r.
  - intros p w _. rewrite pathsHas_filter, String.eqb_refl. apply andb_false_r.
  - intros p q w H. rewrite pathsHas_filter in H.
    now apply andb_true_iff in H as [H _].
  - intros p q w Hne. apply String.eqb_neq in Hne.
    destruct (pathsHas w p); [|reflexivity].
    destruct (existsb (inside p) w); [reflexivity|].
    cbn [fst]. rewrite pathsHas_filter, Hne. apply andb_true_r.
  - intros p w. destruct (pathsHas w p); [|discriminate].
    destruct (existsb (inside p) w); [discriminate|]. intros _.
    cbn [fst]. rewrite pathsHas_filter, String.eqb_refl. apply andb_false_r.
  - intros p q w. destruct (pathsHas w p); [|tauto].
    destruct (existsb (inside p) w); [tauto|].
    cbn [fst]. rewrite pathsHas_filter. intros H.
    now apply andb_true_iff in H as [H _].
  - intros p w H. now apply negb_true_iff in H.
Qed.

(** The deletion pass after the scan of the example library: no
    failure, and what was listed is gone. *)
Lemma no_failure_nothing_left_witness :
  failed (executeDeletions pathsOS (run (scanWith 4) emptyResult) libraryTree) = 0
  /\ Forall (fun p =>
               pathsHas (world (executeDeletions pathsOS (run (scanWith 4) emptyResult)
                                  libraryTree)) p = false)
            (OrphanedFolders (run (scanWith 4) emptyResult)
             ++ OrphanedFiles (run (scanWith 4) emptyResult)
             ++ EmptyFolders (run (scanWith 4) emptyResult)).
Proof.
  split; [vm_compute; reflexivity|].
  apply Forall_forall.
  apply (no_failure_nothing_left (list string) pathsOS pathsHas pathsOS_lawful).
  vm_compute. reflexivity.
Defined.

(** ** [main], from the arguments to the file system *)

Lemma scanLibraries_single (fs : FileSystem) (numWorkers : Z)
  (libraryPath : string) (es : list emission) :
  scanLibraries fs numWorkers [libraryPath] es ->
  scanLibrary fs libraryPath numWorkers es.
Proof.
  intros Hbatch. inversion Hbatch as [|? ? es1 es2 Hscan Hrest]; subst.
  inversion Hrest; subst. now rewrite app_nil_r.
Qed.

Lemma run_listed (es : list emission) (p : string) :
  (In p (OrphanedFolders (run es emptyResult)) <-> In (OrphanedFolder p) es)
  /\ (In p (OrphanedFiles (run es emptyResult)) <-> In (OrphanedFile p) es)
  /\ (In p (EmptyFolders (run es emptyResult)) <-> In (EmptyFolder p) es).
Proof.
  rewrite run_sequences. cbn.
  split; [apply orphanedFoldersOf_In|].
  split; [apply orphanedFilesOf_In | apply emptyFoldersOf_In].
Qed.



Section VideosKept.

Variable fs : FileSystem.
Variable libraryPath : string.
Hypothesis Hwf : wellFormed fs.

Variable numWorkers : Z.
Variable es : list emission.
Hypothesis Hscan : scanLibrary fs libraryPath numWorkers es.

Variable depth : nat.
Variable dirPath : string.
Variable entries : list DirEntry.
Variable f : DirEntry.
Hypothesis Hdepth : depth <= 2.
Hypothesis Hscanned : scanned fs libraryPath depth dirPath.
Hypothesis Hread : ReadDir fs dirPath = Ok entries.
Hypothesis Hf : In f entries.
Hypothesis Hvideo : Spec.isVideoFile f = true.

(** The only entries about a video file of the library, of a studio or
    of a title folder are structure warnings. *)
Lemma video_file_warned_only (e : emission) :
  In e es -> pathOf e = Join dirPath (Name f) ->
  sequenceOf e = InStructureWarnings.
Proof.
  intros He Hpath.
  destruct (scanLibrary_origin _ _ _ _ _ Hscan He) as [v [Habout Hv]].
  rewrite Hpath in Habout.
  pose proof (about_entry fs libraryPath depth dirPath entries f
                Hdepth Hscanned Hread Hf) as Hmine.
  rewrite (about_functional fs libraryPath Hwf _ _ _ Habout Hmine) in Hv.
  unfold Spec.isVideoFile in Hvideo. apply andb_true_iff in Hvideo as [Hfile Hext].
  apply negb_true_iff in Hfile. rewrite <- lookup_videoExtensions in Hext.
  unfold verdict in Hv. rewrite Hfile in Hv.
  assert (Hcat : forall level,
             In e (categorize level (videoBasenamesOf dirPath entries)
                     (Join dirPath (Name f))) ->
             sequenceOf e = InStructureWarnings).
  { intros level Hin.
    rewrite categorize_Join in Hin by apply (entry_validName fs Hwf _ _ _ Hread Hf).
    rewrite Hext in Hin. destruct Hin as [<- | []]. reflexivity. }
  destruct depth as [|[|depth']]; try (now apply Hcat in Hv).
  unfold subdirVerdict, Spec.isUnexpectedSubdir in Hv. rewrite Hfile in Hv.
  destruct Hv.
Qed.

(** A video file of the library, of a studio or of a title folder is
    not inside any Orphaned Folder. *)
Lemma video_file_outside_orphans (titlePath : string) :
  In (OrphanedFolder titlePath) es ->
  inside titlePath (Join dirPath (Name f)) = false.
Proof.
  intros Horphan.
  destruct (inside titlePath (Join dirPath (Name f))) eqn:Hinside; [|reflexivity].
  exfalso.
  destruct (scanLibrary_origin _ _ _ _ _ Hscan Horphan) as [v [Habout Hv]].
  pose proof (origin_listed _ _ _ _ _ Habout Hv) as Horigin. cbn beta iota in Horigin.
  destruct Horigin
    as [[studioPath [listing [t [Hst [Hlisting [Ht [Htdir ->]]]]]]]
        [entries' [Hread' [_ Hnone]]]].
  pose proof (scanned_depth fs libraryPath Hwf _ _ Hst) as Hd1.
  pose proof (scanned_depth fs libraryPath Hwf _ _ Hscanned) as Hd2.
  apply inside_Join in Hinside as [back [Hback Hcount]].
  rewrite !countSeparators_Join in Hcount
    by (apply (entry_validName fs Hwf _ _ _ Hread Hf)
        || apply (entry_validName fs Hwf _ _ _ Hlisting Ht)).
  assert (Hsep : hasSeparator back = false)
    by (apply countSeparators_none; lia).
  apply Join_inj in Hback as [Hdir _];
    [| apply (entry_validName fs Hwf _ _ _ Hread Hf) | exact Hsep].
  rewrite Hdir, Hread' in Hread. injection Hread as ->.
  assert (Hsome : existsb Spec.isVideoFile entries = true)
    by (apply existsb_exists; now exists f).
  congruence.
Qed.

End VideosKept.

(** X14. [main --execute] on one library of a tree with valid names
    never removes a video file that is directly in the library, in a
    studio or in a title folder: whatever the number of workers and
    whatever the removals do within the laws, such a file exists
    afterwards exactly if it existed before. *)
Theorem video_files_survive_execute (W : Type) (os : OS W)
  (has : W -> string -> bool) (fs : FileSystem) (execute : bool) (workers : Z)
  (libraryPath : string) (w : W) (result : CleanupResult) (d : deletion W)
  (depth : nat) (dirPath : string) (entries : list DirEntry) (f : DirEntry) :
  lawful os has ->
  wellFormed fs ->
  mainRuns os fs execute workers [libraryPath] w (Executed result d) ->
  depth <= 2 ->
  scanned fs libraryPath depth dirPath ->
  ReadDir fs dirPath = Ok entries ->
  In f entries ->
  Spec.isVideoFile f = true ->
  has (world d) (Join dirPath (Name f)) = has w (Join dirPath (Name f)).
Proof.
  intros Hlaw Hwf Hmain Hdepth Hscanned Hread Hf Hvideo.
  inversion Hmain as [| |es Hsome Hexec Hbatch]; subst.
  apply scanLibraries_single in Hbatch.
  destruct (run_listed es (Join dirPath (Name f))) as [Hfolders [Hfiles Hempty]].
  assert (Hwarned : forall e, In e es -> pathOf e = Join dirPath (Name f) ->
                      sequenceOf e = InStructureWarnings).
  { intros e. now apply (video_file_warned_only fs libraryPath Hwf workers es
                           Hbatch depth dirPath entries f). }
  apply (executeDeletions_untouched W os has Hlaw).
  - intros p Hp. split.
    + intros <-. apply Hfolders in Hp.
      specialize (Hwarned _ Hp eq_refl). discriminate.
    + apply (video_file_outside_orphans fs libraryPath Hwf workers es
               Hbatch depth dirPath entries f); try assumption.
      apply (proj1 (run_listed es p)). exact Hp.
  - intros Hq. apply Hfiles in Hq. specialize (Hwarned _ Hq eq_refl). discriminate.
  - intros Hq. apply Hempty in Hq. specialize (Hwarned _ Hq eq_refl). discriminate.
Qed.

(** [main --execute lib] on the example library keeps [movie.MKV] of
    the title folder [Movie1]. *)
Lemma video_files_survive_execute_witness :
  pathsHas (world (executeDeletions pathsOS (run (runBatch library 4 200 ["lib"])
                                               emptyResult) libraryTree))
           "lib/StudioA/Movie1/movie.MKV"
  = pathsHas libraryTree "lib/StudioA/Movie1/movie.MKV".
Proof.
  assert (Hmain : mainRuns pathsOS library true 4 ["lib"] libraryTree
                    (Executed (run (runBatch library 4 200 ["lib"]) emptyResult)
                       (executeDeletions pathsOS
                          (run (runBatch library 4 200 ["lib"]) emptyResult)
                          libraryTree))).
  { apply main_executed; [discriminate | reflexivity|].
    apply runBatch_scanLibraries.
    constructor; [vm_compute; discriminate | constructor]. }
  assert (Hstudio : scanned library "lib" 1 (Join "lib" (Name (dir "StudioA")))).
  { apply (scanned_child library "lib" 0 "lib"
             [ dir "Locked"; dir "StudioA"; dir "StudioB";
               file "movie.mkv"; file "movie2.nfo"; file "readme.txt" ]);
      [constructor | reflexivity | right; left; reflexivity | reflexivity]. }
  assert (Htitle : scanned library "lib" 2
                     (Join (Join "lib" (Name (dir "StudioA"))) (Name (dir "Movie1")))).
  { apply (scanned_child library "lib" 1 _
             [ dir "Movie1"; dir "Movie2"; dir "Movie3"; dir "Movie4";
               file "stray.nfo" ]);
      [exact Hstudio | reflexivity | left; reflexivity | reflexivity]. }
  apply (video_files_survive_execute (list string) pathsOS pathsHas library true 4
           "lib" libraryTree _ _ 2 _
           [ dir "MOVIE.TRICKPLAY"; dir "extras"; file "movie.MKV"; file "movie.nfo" ]
           (file "movie.MKV") pathsOS_lawful library_wellFormed Hmain
           (le_n 2) Htitle eq_refl).
  - right. right. left. reflexivity.
  - reflexivity.
Defined.

(** ** The order of the appends *)

Lemma secondPass_cons (fs : FileSystem) (s : string) (rest : list string) :
  secondPass fs (s :: rest) = emptyCheck fs s ++ secondPass fs rest.
Proof. reflexivity. Qed.

(** What is emitted starts with the off-level entries of the library
    and, once the last loop runs, ends with what that loop has
    appended so far. *)
Lemma emitted_shape (fs : FileSystem) (numWorkers : Z) (studioDirs : list string)
  (es : list emission) (st : state) :
  steps fs numWorkers studioDirs (initial es) st ->
  exists middle,
    emitted st ++ secondPass fs (toCheck studioDirs (pc st))
    = es ++ middle ++ secondPass fs studioDirs.
Proof.
  intros Hreach. remember (initial es) as st1 eqn:Hinit.
  induction Hreach as [st1|st1 st2 st3 Hreach IH Hstep]; subst st1.
  - exists []. reflexivity.
  - destruct (IH eq_refl) as [middle Hshape]. clear IH.
    pose proof (barrier fs numWorkers studioDirs es st2 Hreach) as Hbarrier.
    destruct Hstep; cbn [emitted pc toCheck workers] in *;
      try (exists middle; exact Hshape).
    + exists middle. rewrite <- app_assoc. exact Hshape.
    + destruct (pastWait c) eqn:Hpast.
      * specialize (Hbarrier eq_refl). rewrite Forall_forall in Hbarrier.
        assert (Hw : Exited = Processing (e :: es0)).
        { apply Hbarrier. apply in_app_iff. right. now left. }
        discriminate.
      * assert (Hcheck : toCheck studioDirs c = studioDirs).
        { destruct c; try reflexivity; discriminate. }
        rewrite Hcheck in *. exists (middle ++ [e]).
        rewrite (app_assoc es middle) in Hshape.
        apply app_inv_tail in Hshape. rewrite Hshape, <- !app_assoc. reflexivity.
Qed.

(** X15. With at least one worker, the appends of a scan have a fixed
    shape: first the off-level entries of the library in the order of
    its listing, last an Empty Folder for each empty studio in the
    order of the listing, and between them the entries of the studio
    processors, in the order in which the workers happened to append
    them. *)
Theorem scan_appends_shape (fs : FileSystem) (libraryPath : string)
  (numWorkers : Z) (es es0 : list emission) (studioDirs : list string) :
  (0 < numWorkers)%Z ->
  scanPrologue fs libraryPath = Ready es0 studioDirs ->
  scanLibrary fs libraryPath numWorkers es ->
  exists middle,
    es = checkDirectChildren fs libraryPath "library"
         ++ middle ++ secondPass fs studioDirs
    /\ Permutation middle (flat_map (processStudio fs) studioDirs).
Proof.
  intros Hpos Hpro Hscan.
  destruct Hscan as [Hrej | es Hun | es1 studioDirs1 st Hready Hreach Hret];
    try congruence.
  rewrite Hpro in Hready. injection Hready as <- <-.
  destruct (emitted_shape _ _ _ _ _ Hreach) as [middle Hshape].
  rewrite Hret in Hshape. cbn in Hshape. rewrite app_nil_r in Hshape.
  exists middle. split.
  - apply prologue_ready in Hpro as [<- _]. exact Hshape.
  - pose proof (returned_with_workers fs numWorkers studioDirs es0 st
                  Hpos Hreach Hret) as Hperm.
    rewrite Hshape in Hperm. unfold scanInOrder in Hperm.
    apply Permutation_app_inv_l in Hperm.
    now apply Permutation_app_inv_r in Hperm.
Qed.

(** The scan of the example library with four workers. *)
Lemma scan_appends_shape_witness :
  exists middle,
    scanWith 4
    = checkDirectChildren library "lib" "library"
      ++ middle ++ secondPass library ["lib/Locked"; "lib/StudioA"; "lib/StudioB"]
    /\ Permutation middle
         (flat_map (processStudio library)
                   ["lib/Locked"; "lib/StudioA"; "lib/StudioB"]).
Proof.
  apply (scan_appends_shape library "lib" 4 (scanWith 4)
           (checkDirectChildren library "lib" "library")).
  - reflexivity.
  - reflexivity.
  - apply runScan_scanLibrary with 200%nat. reflexivity.
Defined.

(** ** No entry twice *)

Section Subtrees.

Local Open Scope string_scope.

Lemma first_component (a b r1 r2 : string) :
  hasSeparator a = false -> hasSeparator b = false ->
  boundary r1 -> boundary r2 ->
  a ++ r1 = b ++ r2 -> a = b.
Proof.
  revert b. induction a as [|x a IH]; intros [|y b] Ha Hb H1 H2 E; cbn in E.
  - reflexivity.
  - exfalso. cbn in Hb. apply orb_false_iff in Hb as [Hy _].
    destruct H1 as [-> | [r ->]]; [discriminate|].
    cbn in E. injection E as <- _. discriminate.
  - exfalso. cbn in Ha. apply orb_false_iff in Ha as [Hx _].
    destruct H2 as [-> | [r ->]]; [discriminate|].
    cbn in E. injection E as -> _. discriminate.
  - cbn in Ha, Hb. apply orb_false_iff in Ha as [_ Ha].
    apply orb_false_iff in Hb as [_ Hb]. injection E as -> E.
    f_equal. now apply IH.
Qed.

Lemma under_boundary (dirPath name path : string) :
  under (Join dirPath name) path ->
  exists rest, boundary rest /\ path = dirPath ++ "/" ++ name ++ rest.
Proof.
  intros [-> | H].
  - exists "". split; [now left|]. unfold Join. now rewrite append_empty_r.
  - unfold inside in H. apply HasPrefix_starts in H as [back ->].
    exists ("/" ++ back). split; [right; now exists back|].
    unfold Join. now rewrite !append_assoc.
Qed.

(** The subtrees of two entries of a directory with different names
    have no path in common. *)
Lemma under_same_name (dirPath name1 name2 path : string) :
  hasSeparator name1 = false -> hasSeparator name2 = false ->
  under (Join dirPath name1) path -> under (Join dirPath name2) path ->
  name1 = name2.
Proof.
  intros H1 H2 U1 U2.
  apply under_boundary in U1 as [r1 [B1 E1]].
  apply under_boundary in U2 as [r2 [B2 E2]].
  rewrite E1 in E2. apply append_inv_head in E2. cbn in E2. injection E2 as E2.
  now apply first_component with r1 r2.
Qed.

Lemma inside_child (dirPath name : string) : inside dirPath (Join dirPath name) = true.
Proof. unfold inside, Join. rewrite <- append_assoc. apply HasPrefix_append. Qed.

Lemma inside_below (dirPath name path : string) :
  under (Join dirPath name) path -> inside dirPath path = true.
Proof.
  intros [-> | H]; [apply inside_child|].
  unfold inside in *. apply HasPrefix_starts in H as [back ->].
  unfold Join. rewrite !append_assoc, <- append_assoc. apply HasPrefix_append.
Qed.

Lemma inside_not_self (dirPath : string) : inside dirPath dirPath = false.
Proof.
  destruct (inside dirPath dirPath) eqn:H; [|reflexivity].
  unfold inside in H. apply HasPrefix_starts in H as [back H].
  apply (f_equal String.length) in H. rewrite !length_append in H.
  cbn in H. lia.
Qed.

End Subtrees.

Lemma names_unique (entries : list DirEntry) (e1 e2 : DirEntry) :
  NoDup (map Name entries) ->
  In e1 entries -> In e2 entries -> Name e1 = Name e2 -> e1 = e2.
Proof.
  intros Hnodup. induction entries as [|e entries IH]; intros H1 H2 Hname;
    [destruct H1|].
  cbn [map] in Hnodup. inversion Hnodup as [|? ? Hnotin Hrest]; subst.
  destruct H1 as [-> | H1], H2 as [-> | H2].
  - reflexivity.
  - destruct Hnotin. rewrite Hname. now apply in_map.
  - destruct Hnotin. rewrite <- Hname. now apply in_map.
  - now apply IH.
Qed.

(** When each entry of a listing contributes paths of its own subtree,
    no path comes twice if none comes twice for one entry. *)
Lemma NoDup_groups (dirPath : string) (group : DirEntry -> list string)
  (entries : list DirEntry) :
  NoDup (map Name entries) ->
  Forall (fun e => Spec.validName (Name e)) entries ->
  (forall e, In e entries -> NoDup (group e)) ->
  (forall e p, In e entries -> In p (group e) -> under (Join dirPath (Name e)) p) ->
  NoDup (flat_map group entries).
Proof.
  induction entries as [|a entries IH]; intros Hnames Hvalid Hgroup Hunder;
    cbn [flat_map]; [constructor|].
  cbn [map] in Hnames. inversion Hnames as [|? ? Hnotin Hrest]; subst.
  inversion Hvalid as [|? ? Ha Hvalid']; subst.
  apply NoDup_app.
  - apply Hgroup. now left.
  - apply IH; try assumption.
    + intros e He. apply Hgroup. now right.
    + intros e p He. apply Hunder. now right.
  - intros p Hp Hp'. apply in_flat_map in Hp' as [e [He Hpe]].
    assert (Hname : Name a = Name e).
    { apply (under_same_name dirPath _ _ p).
      - apply Ha.
      - rewrite Forall_forall in Hvalid'. apply (Hvalid' e He).
      - apply Hunder; [now left | exact Hp].
      - apply Hunder; [now right | exact Hpe]. }
    apply Hnotin. rewrite Hname. now apply in_map.
Qed.

(** Two contributions per entry that exclude each other entry by entry
    have no path in common. *)
Lemma groups_disjoint (dirPath : string) (group1 group2 : DirEntry -> list string)
  (entries : list DirEntry) (p : string) :
  NoDup (map Name entries) ->
  Forall (fun e => Spec.validName (Name e)) entries ->
  (forall e q, In e entries -> In q (group1 e) -> under (Join dirPath (Name e)) q) ->
  (forall e q, In e entries -> In q (group2 e) -> under (Join dirPath (Name e)) q) ->
  (forall e, In e entries -> In p (group1 e) -> ~ In p (group2 e)) ->
  In p (flat_map group1 entries) -> ~ In p (flat_map group2 entries).
Proof.
  intros Hnames Hvalid Hunder1 Hunder2 Hexcl H1 H2.
  apply in_flat_map in H1 as [e1 [He1 Hp1]].
  apply in_flat_map in H2 as [e2 [He2 Hp2]].
  rewrite Forall_forall in Hvalid.
  assert (Hname : Name e1 = Name e2).
  { apply (under_same_name dirPath _ _ p).
    - apply (Hvalid e1 He1).
    - apply (Hvalid e2 He2).
    - now apply Hunder1.
    - now apply Hunder2. }
  assert (E : e1 = e2) by now apply (names_unique entries).
  subst e2. now apply (Hexcl e1).
Qed.

Lemma map_filter_flat_map (A B : Type) (f : A -> B) (keep : A -> bool) (l : list A) :
  map f (filter keep l) = flat_map (fun x => if keep x then [f x] else []) l.
Proof.
  induction l as [|x l IH]; [reflexivity|]. cbn [filter flat_map].
  destruct (keep x); cbn; now rewrite IH.
Qed.

Lemma map_flat_map_paths (A : Type) (h : A -> list emission) (l : list A) :
  map pathOf (flat_map h l) = flat_map (fun x => map pathOf (h x)) l.
Proof.
  induction l as [|x l IH]; [reflexivity|]. cbn [flat_map].
  now rewrite map_app, IH.
Qed.

Lemma flat_map_studioDirs (B : Type) (g : string -> list B) (libraryPath : string)
  (entries : list DirEntry) :
  flat_map g (flat_map (fun entry =>
                          if IsDir entry then [Join libraryPath (Name entry)] else [])
                       entries)
  = flat_map (fun entry => if IsDir entry then g (Join libraryPath (Name entry)) else [])
             entries.
Proof.
  induction entries as [|e entries IH]; [reflexivity|]. cbn [flat_map].
  rewrite flat_map_app, IH. destruct (IsDir e); cbn; now rewrite ?app_nil_r.
Qed.

Section NoTwice.

Variable fs : FileSystem.
Hypothesis Hwf : wellFormed fs.

Lemma filesOf_NoDup (dirPath : string) (entries : list DirEntry) :
  ReadDir fs dirPath = Ok entries -> NoDup (filesOf dirPath entries).
Proof.
  intros Hread. destruct (Hwf _ _ Hread) as [Hnames Hvalid].
  unfold filesOf. rewrite map_filter_flat_map.
  apply (NoDup_groups dirPath); try assumption.
  - intros e _. destruct (negb (IsDir e)); repeat constructor. intros [].
  - intros e p _ Hp. destruct (negb (IsDir e)); [|destruct Hp].
    destruct Hp as [<- | []]. now left.
Qed.

(** The paths that the entries of a title folder name are the folder
    or lie inside it, and none comes twice. *)
Lemma title_paths (titlePath : string) :
  NoDup (map pathOf (processTitleFolder fs titlePath))
  /\ forall p, In p (map pathOf (processTitleFolder fs titlePath)) -> under titlePath p.
Proof.
  destruct (ReadDir fs titlePath) as [entries|err] eqn:Hread.
  - rewrite (processTitleFolder_read _ _ _ Hread).
    destruct entries as [|e0 entries].
    + split; [repeat constructor; intros [] | intros p [<- | []]; now left].
    + destruct (Hwf _ _ Hread) as [Hnames Hvalid].
      rewrite map_app, map_map. cbn [pathOf warningPath].
      assert (Hinside : forall p,
                 In p (map (fun x => Join titlePath (Name x))
                         (filter Spec.isUnexpectedSubdir (e0 :: entries))) ->
                 inside titlePath p = true).
      { intros p Hp. apply in_map_iff in Hp as [x [<- _]]. apply inside_child. }
      split.
      * apply NoDup_app.
        -- rewrite map_filter_flat_map.
           apply (NoDup_groups titlePath); try assumption.
           ++ intros e _. destruct (Spec.isUnexpectedSubdir e);
                repeat constructor. intros [].
           ++ intros e p _ Hp. destruct (Spec.isUnexpectedSubdir e); [|destruct Hp].
              destruct Hp as [<- | []]. now left.
        -- destruct (existsb Spec.isVideoFile (e0 :: entries));
             repeat constructor. intros [].
        -- intros p Hp Hp'. apply Hinside in Hp.
           destruct (existsb Spec.isVideoFile (e0 :: entries)); [destruct Hp'|].
           destruct Hp' as [<- | []]. now rewrite inside_not_self in Hp.
      * intros p Hp. apply in_app_iff in Hp as [Hp | Hp].
        -- right. now apply Hinside.
        -- destruct (existsb Spec.isVideoFile (e0 :: entries)); [destruct Hp|].
           destruct Hp as [<- | []]. now left.
  - unfold processTitleFolder. rewrite Hread.
    split; [repeat constructor; intros [] | intros p [<- | []]; now left].
Qed.

(** The same for a studio. *)
Lemma studio_paths (studioPath : string) :
  NoDup (map pathOf (processStudio fs studioPath))
  /\ forall p, In p (map pathOf (processStudio fs studioPath)) -> under studioPath p.
Proof.
  destruct (ReadDir fs studioPath) as [entries|err] eqn:Hread.
  - rewrite (processStudio_read _ _ _ Hread), map_app.
    destruct (Hwf _ _ Hread) as [Hnames Hvalid].
    rewrite (checkDirectChildren_read _ _ _ _ Hread), categorize_paths.
    unfold processTitles. rewrite map_flat_map_paths.
    unfold filesOf. rewrite map_filter_flat_map.
    set (gfile := fun x : DirEntry =>
                    if negb (IsDir x) then [Join studioPath (Name x)] else []).
    set (gdir := fun x : DirEntry =>
                   map pathOf (if negb (IsDir x) then []
                               else processTitleFolder fs (Join studioPath (Name x)))).
    assert (Hufile : forall e q, In e entries -> In q (gfile e) ->
                       under (Join studioPath (Name e)) q).
    { intros e q _ Hq. unfold gfile in Hq.
      destruct (negb (IsDir e)); [|destruct Hq]. destruct Hq as [<- | []]. now left. }
    assert (Hudir : forall e q, In e entries -> In q (gdir e) ->
                      under (Join studioPath (Name e)) q).
    { intros e q _ Hq. unfold gdir in Hq.
      destruct (negb (IsDir e)); [destruct Hq|].
      now apply (proj2 (title_paths _)). }
    split.
    + apply NoDup_app.
      * apply (NoDup_groups studioPath); try assumption.
        intros e _. unfold gfile. destruct (negb (IsDir e)); repeat constructor.
        intros [].
      * apply (NoDup_groups studioPath); try assumption.
        intros e _. unfold gdir. destruct (negb (IsDir e)); [constructor|].
        apply (proj1 (title_paths _)).
      * intros p. apply (groups_disjoint studioPath); try assumption.
        intros e _ Hfile Hdir. unfold gfile in Hfile. unfold gdir in Hdir.
        destruct (negb (IsDir e)); [destruct Hdir | destruct Hfile].
    + intros p Hp. right. apply in_app_iff in Hp as [Hp | Hp];
        apply in_flat_map in Hp as [e [He Hp]].
      * apply (inside_below _ (Name e)). now apply Hufile.
      * apply (inside_below _ (Name e)). now apply Hudir.
  - unfold processStudio, checkDirectChildren. rewrite Hread. cbn.
    split; [repeat constructor; intros [] | intros p [<- | []]; now left].
Qed.

(** No path is named twice by the appends of the scan in order. *)
Lemma scanInOrder_NoDup (libraryPath : string) (es : list emission)
  (studioDirs : list string) :
  scanPrologue fs libraryPath = Ready es studioDirs ->
  NoDup (map pathOf (scanInOrder fs es studioDirs)).
Proof.
  intros Hpro. apply prologue_ready in Hpro as [-> [entries [Hread ->]]].
  destruct (Hwf _ _ Hread) as [Hnames Hvalid].
  unfold scanInOrder, secondPass. rewrite !map_app.
  rewrite (checkDirectChildren_read _ _ _ _ Hread), categorize_paths.
  rewrite !map_flat_map_paths, !flat_map_studioDirs.
  unfold filesOf. rewrite map_filter_flat_map.
  set (gfile := fun x : DirEntry =>
                  if negb (IsDir x) then [Join libraryPath (Name x)] else []).
  set (gstudio := fun x : DirEntry =>
                    if IsDir x
                    then map pathOf (processStudio fs (Join libraryPath (Name x)))
                    else []).
  set (gempty := fun x : DirEntry =>
                   if IsDir x
                   then map pathOf (emptyCheck fs (Join libraryPath (Name x)))
                   else []).
  assert (Hufile : forall e q, In e entries -> In q (gfile e) ->
                     under (Join libraryPath (Name e)) q).
  { intros e q _ Hq. unfold gfile in Hq.
    destruct (negb (IsDir e)); [|destruct Hq]. destruct Hq as [<- | []]. now left. }
  assert (Hustudio : forall e q, In e entries -> In q (gstudio e) ->
                       under (Join libraryPath (Name e)) q).
  { intros e q _ Hq. unfold gstudio in Hq. destruct (IsDir e); [|destruct Hq].
    now apply (proj2 (studio_paths _)). }
  assert (Hempty : forall e q, In q (gempty e) ->
            IsDir e = true /\ q = Join libraryPath (Name e)
            /\ ReadDir fs (Join libraryPath (Name e)) = Ok []).
  { intros e q Hq. unfold gempty, emptyCheck, isDirEmpty in Hq.
    destruct (IsDir e); [|destruct Hq].
    destruct (ReadDir fs (Join libraryPath (Name e))) as [[|t titles]|err];
      cbn in Hq; [|destruct Hq..].
    destruct Hq as [<- | []]. now repeat split. }
  assert (Huempty : forall e q, In e entries -> In q (gempty e) ->
                      under (Join libraryPath (Name e)) q).
  { intros e q _ Hq. apply Hempty in Hq as [_ [-> _]]. now left. }
  apply NoDup_app; [|apply NoDup_app|].
  - apply (NoDup_groups libraryPath); try assumption.
    intros e _. unfold gfile. destruct (negb (IsDir e)); repeat constructor.
    intros [].
  - apply (NoDup_groups libraryPath); try assumption.
    intros e _. unfold gstudio. destruct (IsDir e); [|constructor].
    apply (proj1 (studio_paths _)).
  - apply (NoDup_groups libraryPath); try assumption.
    intros e _. unfold gempty, emptyCheck.
    destruct (IsDir e); [|constructor].
    destruct (fst (isDirEmpty fs (Join libraryPath (Name e))));
      repeat constructor. intros [].
  - intros p. apply (groups_disjoint libraryPath); try assumption.
    intros e _ Hstudio Hnone. apply Hempty in Hnone as [Hdir [-> Hread']].
    unfold gstudio in Hstudio. rewrite Hdir in Hstudio.
    rewrite (processStudio_read _ _ _ Hread') in Hstudio.
    rewrite (checkDirectChildren_read _ _ _ _ Hread') in Hstudio.
    destruct Hstudio.
  - intros p Hfile Hrest. apply in_app_iff in Hrest as [Hrest | Hrest];
      revert Hrest; apply (groups_disjoint libraryPath gfile); try assumption;
      intros e _ Hf Hd; unfold gfile in Hf.
    + unfold gstudio in Hd. destruct (IsDir e); [destruct Hf | destruct Hd].
    + apply Hempty in Hd as [Hdir _]. rewrite Hdir in Hf. destruct Hf.
Qed.

End NoTwice.

Lemma sequences_listed (es : list emission) (p : string) :
  In p (orphanedFoldersOf es ++ orphanedFilesOf es ++ emptyFoldersOf es) ->
  In p (map pathOf es).
Proof.
  unfold orphanedFoldersOf, orphanedFilesOf, emptyFoldersOf.
  rewrite !in_app_iff, !in_flat_map, in_map_iff.
  intros [[e [He Hp]] | [[e [He Hp]] | [e [He Hp]]]]; exists e;
    destruct e; cbn in Hp; try (now destruct Hp);
    destruct Hp as [<- | []]; now split.
Qed.

Lemma sequences_NoDup (es : list emission) :
  NoDup (map pathOf es) ->
  NoDup (orphanedFoldersOf es ++ orphanedFilesOf es ++ emptyFoldersOf es).
Proof.
  induction es as [|e es IH]; intros Hnodup; [constructor|].
  cbn [map] in Hnodup. inversion Hnodup as [|? ? Hnotin Hrest]; subst.
  specialize (IH Hrest).
  assert (Hnew : NoDup (pathOf e :: orphanedFoldersOf es ++ orphanedFilesOf es
                                     ++ emptyFoldersOf es)).
  { constructor; [|exact IH]. intros Hin. apply Hnotin.
    now apply sequences_listed. }
  unfold orphanedFoldersOf, orphanedFilesOf, emptyFoldersOf in *.
  destruct e as [p|p|p|w]; cbn [flat_map pathOf app] in *.
  - exact Hnew.
  - revert Hnew. apply Permutation_NoDup. apply Permutation_middle.
  - revert Hnew. apply Permutation_NoDup.
    rewrite !app_assoc. apply Permutation_middle.
  - exact IH.
Qed.

(** X16. In a directory tree whose listings name every entry once, by
    a name without separator, a scan names no path twice, whatever the
    number of workers and their interleaving: no two of its appends are
    about the same path, and the Orphaned Folders, Orphaned Files and
    Empty Folders it leaves, put together, hold every path at most
    once. *)
Theorem scan_names_no_path_twice (fs : FileSystem) (libraryPath : string)
  (numWorkers : Z) (es : list emission) :
  wellFormed fs ->
  scanLibrary fs libraryPath numWorkers es ->
  NoDup (map pathOf es)
  /\ NoDup (OrphanedFolders (run es emptyResult)
            ++ OrphanedFiles (run es emptyResult)
            ++ EmptyFolders (run es emptyResult)).
Proof.
  intros Hwf Hscan.
  assert (Hpaths : NoDup (map pathOf es)).
  { destruct Hscan as [Hpro | es Hpro | es0 studioDirs st Hpro Hsteps Hret].
    - constructor.
    - unfold scanPrologue in Hpro.
      destruct (Stat fs libraryPath) as [[|]|]; cbn in Hpro; try discriminate.
      destruct (ReadDir fs libraryPath) as [entries|err] eqn:Hread;
        [discriminate|].
      injection Hpro as <-. unfold checkDirectChildren. rewrite Hread.
      constructor.
    - pose proof (emitted_remaining fs numWorkers studioDirs es0 st Hsteps) as Hperm.
      apply (Permutation_map pathOf) in Hperm. rewrite map_app in Hperm.
      apply Permutation_sym in Hperm.
      pose proof (scanInOrder_NoDup fs Hwf libraryPath es0 studioDirs Hpro) as Hall.
      apply (Permutation_NoDup Hperm) in Hall.
      now apply NoDup_app_remove_r in Hall. }
  split; [exact Hpaths|].
  rewrite run_sequences. cbn. now apply sequences_NoDup.
Qed.

Lemma scan_names_no_path_twice_witness :
  NoDup (map pathOf (scanWith 4))
  /\ NoDup (OrphanedFolders (run (scanWith 4) emptyResult)
            ++ OrphanedFiles (run (scanWith 4) emptyResult)
            ++ EmptyFolders (run (scanWith 4) emptyResult)).
Proof.
  apply (scan_names_no_path_twice library "lib" 4 (scanWith 4) library_wellFormed).
  apply runScan_scanLibrary with 200%nat. reflexivity.
Defined.
